(** * fsdb: a file-system key/value store with a remote-bucket tier

    A shallow embedding of the local engine (package [local]) and of the
    remote tier (package [remote]), together with the parts of the Go
    runtime they rely on: a store of files addressed by path, the gzip
    container, CRC-32, and [filepath.Walk]. *)

From Stdlib Require Import ZArith NArith Strings.Ascii Strings.Byte Lia.
From stdpp Require Import gmap strings list fin_maps.

Open Scope string_scope.
Open Scope list_scope.
Open Scope nat_scope.
Open Scope stdpp_scope.

(** ** Byte sequences and keys *)

Abbreviation bytes := (list byte).

#[global] Instance byte_eq_decision : EqDecision byte := Byte.byte_eq_dec.

(** Modelled from the spec: [fsdb.Key], whose declaration is not part of
    the sources at hand (section 3: a byte sequence, equality is
    bytewise). *)
Definition Key : Type := bytes.

Definition Key_Equals (key other : Key) : bool := bool_decide (key = other).

(** ** Errors

    Go's [error] values. A nil error is [None] of [option error]. *)

Inductive Errno := ENOENT | EEXIST | ENOTDIR | EISDIR | ENOTEMPTY | EINVAL.

#[warnings="-register-all"]
Inductive error :=
| NoSuchKeyError (key : Key)                 (* fsdb.NoSuchKeyError *)
| KeyCollisionError (NewKey OldKey : Key)    (* local.KeyCollisionError *)
| context_Canceled                           (* ctx.Err() *)
| errCanceled                                (* "canceled by keyFunc" *)
| filepath_SkipDir
| PathError (op path : string) (errno : Errno)
| io_EOF
| io_ErrUnexpectedEOF
| gzip_ErrHeader
| gzip_ErrChecksum
| flate_CorruptInput
| flate_InvalidLevel (level : Z)
| BucketError (msg : string)                 (* a failure of the bucket backend *)
| BatchError (errors : list error).          (* a compiled errbatch.ErrBatch *)

Inductive result (A : Type) :=
| Ok (a : A)
| Err (e : error).
Arguments Ok {A} a.
Arguments Err {A} e.

(** Modelled from the spec: [fsdb.IsNoSuchKeyError], not part of the
    sources at hand; it recognises the [NoSuchKeyError] kind (section 7). *)
Definition IsNoSuchKeyError (err : option error) : bool :=
  match err with
  | Some (NoSuchKeyError _) => true
  | _ => false
  end.

Definition os_IsNotExist (err : option error) : bool :=
  match err with
  | Some (PathError _ _ ENOENT) => true
  | _ => false
  end.

Definition os_IsExist (err : option error) : bool :=
  match err with
  | Some (PathError _ _ EEXIST) => true
  | Some (PathError _ _ ENOTEMPTY) => true
  | _ => false
  end.

(** ** Paths

    Paths are strings, as in the source. A file-system object is stored
    under its path without trailing separators, so [clean] is applied at
    every system call. Resolution of [.] and [..] is not modelled. *)

Definition PathSeparator : string := "/".

Fixpoint clean (p : string) : string :=
  match p with
  | "" => ""
  | String c r =>
      match clean r with
      | "" => if Ascii.eqb c "/"%char then "" else String c ""
      | r' => String c r'
      end
  end.

(** [under d q]: [q] lies strictly below the directory stored at [d]. *)
Definition under (d q : string) : bool := String.prefix (d +:+ "/") q.

Fixpoint HasSuffix (s suffix : string) : bool :=
  if String.eqb s suffix then true
  else match s with
       | "" => false
       | String _ r => HasSuffix r suffix
       end.

(** [filepath.Join] of a directory and one element. *)
Definition filepath_Join (dir name : string) : string :=
  clean dir +:+ "/" +:+ name.

Fixpoint Base_aux (acc p : string) : string :=
  match p with
  | "" => acc
  | String c r =>
      if Ascii.eqb c "/"%char then Base_aux "" r
      else Base_aux (acc +:+ String c "") r
  end.

Definition filepath_Base (path : string) : string :=
  match path with
  | "" => "."
  | _ => match clean path with
         | "" => "/"
         | q => Base_aux "" q
         end
  end.

(** The proper ancestors of a path, outermost first. *)
Fixpoint ancestors_aux (pre rest : string) : list string :=
  match rest with
  | "" => []
  | String c r =>
      (if Ascii.eqb c "/"%char
       then match clean pre with "" => [] | d => [d] end
       else [])
        ++ ancestors_aux (pre +:+ String c "") r
  end.

Definition ancestors (p : string) : list string := ancestors_aux "" p.

(** ** The file store

    One entry per file-system object. Directory structure is given by
    the paths: the children of the directory stored at [d] are the
    entries whose path extends [d ++ "/"]. *)

Inductive node :=
| File (content : bytes)
| Dir.

Abbreviation FS := (gmap string node).

Definition has_children (fs : FS) (d : string) : bool :=
  bool_decide (filter (λ kv, Is_true (under d kv.1)) fs ≠ ∅).

Definition os_Lstat (fs : FS) (path : string) : result node :=
  match fs !! clean path with
  | Some n => Ok n
  | None => Err (PathError "lstat" path ENOENT)
  end.

(** [os.Open] succeeds on directories too; reading them fails. The
    handle is represented by the object it was opened on. *)
Definition os_Open (fs : FS) (path : string) : result node :=
  match fs !! clean path with
  | Some n => Ok n
  | None => Err (PathError "open" path ENOENT)
  end.

Definition ioutil_ReadAll_file (file : node) : result bytes :=
  match file with
  | File content => Ok content
  | Dir => Err (PathError "read" "" EISDIR)
  end.

(** [os.OpenFile(path, O_RDWR|O_CREATE|O_TRUNC, mode)]. *)
Definition os_OpenFile_create_trunc (fs : FS) (path : string) : result string * FS :=
  match fs !! clean path with
  | Some Dir => (Err (PathError "open" path EISDIR), fs)
  | _ => (Ok (clean path), <[clean path := File []]> fs)
  end.

(** Writing through an open handle appends to the file. *)
Definition file_Write (fs : FS) (handle : string) (data : bytes) : FS :=
  alter (λ n, match n with File c => File (c ++ data) | Dir => Dir end) handle fs.

Definition os_Mkdir (fs : FS) (path : string) : option error * FS :=
  match fs !! clean path with
  | Some _ => (Some (PathError "mkdir" path EEXIST), fs)
  | None => (None, <[clean path := Dir]> fs)
  end.

Fixpoint mkdirs (path : string) (ds : list string) (fs : FS) : option error * FS :=
  match ds with
  | [] => (None, fs)
  | d :: ds' =>
      match fs !! d with
      | Some (File _) => (Some (PathError "mkdir" path ENOTDIR), fs)
      | Some Dir => mkdirs path ds' fs
      | None => mkdirs path ds' (<[d := Dir]> fs)
      end
  end.

Definition os_MkdirAll (fs : FS) (path : string) : option error * FS :=
  mkdirs path (ancestors (clean path) ++ match clean path with "" => [] | d => [d] end) fs.

(** [os.Remove] removes a file or an empty directory. *)
Definition os_Remove (fs : FS) (path : string) : option error * FS :=
  match fs !! clean path with
  | None => (Some (PathError "remove" path ENOENT), fs)
  | Some (File _) => (None, delete (clean path) fs)
  | Some Dir =>
      if has_children fs (clean path)
      then (Some (PathError "remove" path ENOTEMPTY), fs)
      else (None, delete (clean path) fs)
  end.

(** [os.RemoveAll] removes the path and everything below it; a missing
    path is not an error. *)
Definition os_RemoveAll (fs : FS) (path : string) : option error * FS :=
  (None,
   filter (λ kv, kv.1 ≠ clean path ∧ ¬ Is_true (under (clean path) kv.1)) fs).

(** [os.Rename] of a regular file. The engine only renames files it has
    just created; renaming a directory is reported as an error. *)
Definition os_Rename (fs : FS) (oldpath newpath : string) : option error * FS :=
  match fs !! clean oldpath with
  | None => (Some (PathError "rename" oldpath ENOENT), fs)
  | Some Dir => (Some (PathError "rename" oldpath EINVAL), fs)
  | Some (File c) =>
      match fs !! clean newpath with
      | Some Dir => (Some (PathError "rename" newpath EISDIR), fs)
      | _ => (None, <[clean newpath := File c]> (delete (clean oldpath) fs))
      end
  end.

(** ** CRC-32 (package [hash/crc32])

    The table-driven algorithm of [simpleMakeTable] and [simpleUpdate]
    on 32-bit values. *)

Definition crc32_IEEE : N := 0xedb88320.
Definition crc32_Castagnoli : N := 0x82f63b78.

Definition crc32_MakeTable (poly : N) (i : N) : N :=
  N.iter 8
    (λ crc, if N.odd crc then N.lxor (N.shiftr crc 1) poly else N.shiftr crc 1)
    i.

Definition crc32_Update (crc : N) (tab : N → N) (p : bytes) : N :=
  let crc := N.lxor crc 0xffffffff in
  let crc :=
    fold_left
      (λ crc v, N.lxor (tab (N.lxor (N.land crc 0xff) (Byte.to_N v))) (N.shiftr crc 8))
      p crc in
  N.lxor crc 0xffffffff.

Definition crc32_Checksum (data : bytes) (tab : N → N) : N :=
  crc32_Update 0 tab data.

Definition crc32_ChecksumIEEE (data : bytes) : N :=
  crc32_Checksum data (crc32_MakeTable crc32_IEEE).

(** ** Little-endian encoding ([encoding/binary]) *)

Definition byte_of_N (n : N) : byte :=
  match Byte.of_N (n mod 256) with
  | Some b => b
  | None => x00
  end.

Definition PutUint16 (n : N) : bytes :=
  [byte_of_N n; byte_of_N (N.shiftr n 8)].

Definition PutUint32 (n : N) : bytes :=
  [byte_of_N n; byte_of_N (N.shiftr n 8);
   byte_of_N (N.shiftr n 16); byte_of_N (N.shiftr n 24)].

Definition Uint16 (b0 b1 : byte) : N :=
  (Byte.to_N b0 + 256 * Byte.to_N b1)%N.

(** [io.ReadFull] of [n] bytes from a byte source. *)
Definition read_full (n : nat) (input : bytes) : option (bytes * bytes) :=
  if decide (n ≤ length input) then Some (take n input, drop n input) else None.

(** ** DEFLATE (package [compress/flate])

    The compressed representation is left to the codec. [deflate level
    data] is the output of a writer of the given level that is written
    [data] and closed; [inflate input] decodes one stream from the front
    of [input] and returns the data with the unread rest of the input. *)

Record FlateCodec := {
  deflate : Z → bytes → bytes;
  inflate : bytes → result (bytes * bytes)
}.

(** Decoding inverts encoding, whatever follows the stream. *)
Definition lossless (fc : FlateCodec) : Prop :=
  ∀ level data rest, inflate fc (deflate fc level data ++ rest) = Ok (data, rest).

(** A sync flush with no pending input emits an empty stored block. *)
Definition flate_sync_marker : bytes := [x00; x00; x00; xff; xff].

(** ** The gzip container (package [compress/gzip], RFC 1952) *)

Module gzip.

Definition NoCompression : Z := 0.
Definition BestSpeed : Z := 1.
Definition BestCompression : Z := 9.
Definition DefaultCompression : Z := -1.
Definition HuffmanOnly : Z := -2.

(** The ten-byte header a [Writer] emits: no optional fields, no
    modification time, operating system unknown. *)
Definition header (level : Z) : bytes :=
  [x1f; x8b; x08; x00; x00; x00; x00; x00;
   (if (level =? BestCompression)%Z then x02
    else if (level =? BestSpeed)%Z then x04 else x00);
   xff].

Definition trailer (data : bytes) : bytes :=
  PutUint32 (crc32_ChecksumIEEE data) ++ PutUint32 (N.of_nat (length data)).

(** *** Writer *)

Record Writer := { w_level : Z; wroteHeader : bool }.

Definition NewWriterLevel (level : Z) : result Writer :=
  if ((level <? HuffmanOnly) || (BestCompression <? level))%Z
  then Err (flate_InvalidLevel level)
  else Ok {| w_level := level; wroteHeader := false |}.

(** Everything a writer emits when [data] is copied into it and it is
    then closed. *)
Definition Writer_Copy_Close (fc : FlateCodec) (z : Writer) (data : bytes) : bytes :=
  (if wroteHeader z then [] else header (w_level z))
    ++ deflate fc (w_level z) data ++ trailer data.

(** [Flush] on a writer that has been given no data: the header, if
    not yet written, then the compressor's sync marker. *)
Definition Writer_Flush (z : Writer) : bytes * Writer :=
  ((if wroteHeader z then [] else header (w_level z)) ++ flate_sync_marker,
   {| w_level := w_level z; wroteHeader := true |}).

(** *** Reader *)

Definition flagHdrCrc : N := 2.
Definition flagExtra : N := 4.
Definition flagName : N := 8.
Definition flagComment : N := 16.

(** [readString]: a NUL-terminated string of at most 512 bytes. The
    result is the consumed bytes and the rest of the input. *)
Fixpoint readString (room : nat) (input : bytes) : result (bytes * bytes) :=
  match room with
  | O => Err gzip_ErrHeader
  | S room' =>
      match input with
      | [] => Err io_ErrUnexpectedEOF
      | b :: rest =>
          if decide (b = x00) then Ok ([b], rest)
          else match readString room' rest with
               | Ok (s, rest') => Ok (b :: s, rest')
               | Err e => Err e
               end
      end
  end.

Definition has_flag (flg : byte) (flag : N) : bool :=
  negb (N.land (Byte.to_N flg) flag =? 0)%N.

(** [readHeader] consumes one member header from the source and
    returns the unread rest. *)
Definition readHeader (input : bytes) : result bytes :=
  match input with
  | [] => Err io_EOF
  | _ =>
    match read_full 10 input with
    | None => Err io_ErrUnexpectedEOF
    | Some (buf, rest) =>
      match buf with
      | id1 :: id2 :: cm :: flg :: _ =>
        if negb (bool_decide (id1 = x1f ∧ id2 = x8b ∧ cm = x08))
        then Err gzip_ErrHeader
        else
          let extra :=
            if has_flag flg flagExtra then
              match rest with
              | l0 :: l1 :: rest1 =>
                  match read_full (N.to_nat (Uint16 l0 l1)) rest1 with
                  | Some (data, rest2) => Ok (buf ++ [l0; l1] ++ data, rest2)
                  | None => Err io_ErrUnexpectedEOF
                  end
              | _ => Err io_ErrUnexpectedEOF
              end
            else Ok (buf, rest) in
          let str (flag : N) (r : result (bytes * bytes)) :=
            match r with
            | Err e => Err e
            | Ok (seen, rest) =>
                if has_flag flg flag then
                  match readString 512 rest with
                  | Ok (s, rest') => Ok (seen ++ s, rest')
                  | Err e => Err e
                  end
                else Ok (seen, rest)
            end in
          match str flagComment (str flagName extra) with
          | Err e => Err e
          | Ok (seen, rest) =>
              if has_flag flg flagHdrCrc then
                match rest with
                | d0 :: d1 :: rest' =>
                    if (Uint16 d0 d1 =? crc32_ChecksumIEEE seen mod 65536)%N
                    then Ok rest'
                    else Err gzip_ErrHeader
                | _ => Err io_ErrUnexpectedEOF
                end
              else Ok rest
          end
      | _ => Err io_ErrUnexpectedEOF
      end
    end
  end.

(** A reader positioned after the first member header. *)
Record Reader := { unread : bytes }.

(** [NewReader] reads the header at once; the source is left at the
    first byte after it. *)
Definition NewReader (input : bytes) : result Reader :=
  match readHeader input with
  | Ok rest => Ok {| unread := rest |}
  | Err e => Err e
  end.

(** Draining a reader: the member's data, its trailer, then any
    further members of the file. *)
Fixpoint read_members (fc : FlateCodec) (fuel : nat) (body : bytes) : result bytes :=
  match fuel with
  | O => Err io_ErrUnexpectedEOF
  | S fuel' =>
      match inflate fc body with
      | Err e => Err e
      | Ok (data, rest) =>
          match read_full 8 rest with
          | None => Err io_ErrUnexpectedEOF
          | Some (tr, rest') =>
              if negb (bool_decide (tr = trailer data)) then Err gzip_ErrChecksum
              else match rest' with
                   | [] => Ok data
                   | _ =>
                       match readHeader rest' with
                       | Err e => Err e
                       | Ok body' =>
                           match read_members fc fuel' body' with
                           | Ok more => Ok (data ++ more)
                           | Err e => Err e
                           end
                       end
                   end
          end
      end
  end.

Definition ReadAll (fc : FlateCodec) (z : Reader) : result bytes :=
  read_members fc (S (length (unread z))) (unread z).

End gzip.

(** The errors reading a gzip member header can give. *)
Definition header_error (e : error) : Prop :=
  e = io_EOF ∨ e = io_ErrUnexpectedEOF ∨ e = gzip_ErrHeader.

(** ** Contexts

    A context is either never cancelled or cancelled from some poll of
    the running call on; [ctx_Done ctx i] is the outcome of the call's
    [i]-th [select] on [ctx.Done()]. *)

Inductive Context :=
| Background
| DoneAt (n : nat).

Definition ctx_Done (ctx : Context) (poll : nat) : bool :=
  match ctx with
  | Background => false
  | DoneAt n => n <=? poll
  end.

(** ** The local engine (package [local]) *)

Module local.

Definition KeyFilename : string := "key".
Definition DataFilename : string := "data".
Definition GzipDataFilename : string := "data.gz".
Definition tempDirPrefix : string := "fsdb_".

(** Modelled from the spec: the option set of a local database, whose
    declaration is not part of the sources at hand (section 6: data
    root, temp root, directory resolver, compression flag and level).
    Directory paths end with the path separator. *)
Record Options := {
  GetRootDataDir : string;
  GetRootTempDir : string;
  GetDirForKey : Key → string;
  GetUseGzip : bool;
  GetGzipLevel : Z
}.

(** The state a call runs in: the file store and the supply of random
    suffixes [ioutil.TempDir] draws from. *)
Record World := { files : FS; rand : list string }.

(** A call either returns a value or returns early with an error; the
    store keeps whatever was done up to that point. *)
Definition M (A : Type) : Type := World → result A * World.

Definition ret {A} (a : A) : M A := λ w, (Ok a, w).

Definition fail {A} (e : error) : M A := λ w, (Err e, w).

Definition bind {A B} (m : M A) (k : A → M B) : M B :=
  λ w, match m w with
       | (Ok a, w') => k a w'
       | (Err e, w') => (Err e, w')
       end.

Notation "x <- m ;; k" := (bind m (λ x, k))
  (at level 100, m at next level, right associativity).
Notation "m ;; k" := (bind m (λ _, k))
  (at level 100, right associativity).

(** A system call that only inspects the store. *)
Definition inspect {A} (f : FS → A) : M A := λ w, (Ok (f (files w)), w).

(** A system call that may change the store. *)
Definition syscall {A} (f : FS → A * FS) : M A :=
  λ w, let '(a, fs) := f (files w) in (Ok a, {| files := fs; rand := rand w |}).

Definition update (f : FS → FS) : M unit :=
  λ w, (Ok tt, {| files := f (files w); rand := rand w |}).

(** [defer]: the clean-up runs on every way out of [body]; its own
    result is dropped. *)
Definition defer {A B} (cleanup : FS → B * FS) (body : M A) : M A :=
  λ w, let '(r, w') := body w in
       (r, {| files := (cleanup (files w')).2; rand := rand w' |}).

(** The [select] on [ctx.Done()] between phases. *)
Definition checkpoint (ctx : Context) (poll : nat) : M unit :=
  if ctx_Done ctx poll then fail context_Canceled else ret tt.

Definition error_of {A} (r : result A) : option error :=
  match r with
  | Ok _ => None
  | Err e => Some e
  end.

(** *** Helpers *)

Definition readKey (fs : FS) (path : string) : result Key :=
  match os_Open fs path with
  | Err e => Err e
  | Ok file => ioutil_ReadAll_file file
  end.

Definition checkKeyCollision (fs : FS) (key : Key) (path : string) : option error :=
  match readKey fs path with
  | Err e => Some e
  | Ok old =>
      if Key_Equals key old then None
      else Some (KeyCollisionError key old)
  end.

Definition createFile (path : string) : M string :=
  r <- syscall (λ fs, os_OpenFile_create_trunc fs path) ;;
  match r with
  | Ok f => ret f
  | Err e => fail e
  end.

(** [ioutil.TempDir]: tries fresh names until [os.Mkdir] does not
    report that the name exists. *)
Fixpoint ioutil_TempDir (dir pfx : string) (rnd : list string) (fs : FS)
  : (string * option error) * (list string * FS) :=
  match rnd with
  | [] => (("", Some (PathError "mkdir" dir EEXIST)), ([], fs))
  | suffix :: rnd' =>
      let try := filepath_Join dir (pfx +:+ suffix) in
      match os_Mkdir fs try with
      | (None, fs') => ((try, None), (rnd', fs'))
      | (Some _, _) => ioutil_TempDir dir pfx rnd' fs
      end
  end.

Section Engine.

Context (fc : FlateCodec) (opts : Options).

(** What [Read] hands back: the open data file, or the gzip reader
    wrapped together with the file it reads from ([wrapreader.Wrap],
    whose result reads from the reader and closes both). *)
Inductive ReadCloser :=
| OsFile (file : node)
| Wrapped (reader : gzip.Reader) (file : node).

Definition ioutil_ReadAll (r : ReadCloser) : result bytes :=
  match r with
  | OsFile file => ioutil_ReadAll_file file
  | Wrapped reader _ => gzip.ReadAll fc reader
  end.

Definition Read (fs : FS) (ctx : Context) (key : Key) : result ReadCloser :=
  if ctx_Done ctx 0 then Err context_Canceled else
  let dir := GetDirForKey opts key in
  let keyFile := dir +:+ KeyFilename in
  if os_IsNotExist (error_of (os_Lstat fs keyFile)) then Err (NoSuchKeyError key) else
  match checkKeyCollision fs key keyFile with
  | Some err => Err err
  | None =>
      let dataFile := dir +:+ DataFilename in
      match os_Lstat fs dataFile with
      | Ok _ =>
          match os_Open fs dataFile with
          | Ok file => Ok (OsFile file)
          | Err e => Err e
          end
      | Err _ =>
          let dataFile := dir +:+ GzipDataFilename in
          match os_Lstat fs dataFile with
          | Ok _ =>
              match os_Open fs dataFile with
              | Err err => Err err
              | Ok file =>
                  match ioutil_ReadAll_file file with
                  | Err err => Err err
                  | Ok content =>
                      match gzip.NewReader content with
                      | Err err => Err err
                      | Ok reader => Ok (Wrapped reader file)
                      end
                  end
              end
          | Err _ =>
              (* Key file exists but there's no data file *)
              Err (NoSuchKeyError key)
          end
      end
  end.

(** [getTempDir] returns a temp directory ready to use. *)
Definition getTempDir : World → (string * option error) * World :=
  λ w,
    let root := GetRootTempDir opts in
    let '(err, fs) := os_MkdirAll (files w) root in
    if bool_decide (err ≠ None) && negb (os_IsExist err)
    then (("", err), {| files := fs; rand := rand w |})
    else
      let '((dir, err), (rnd, fs)) := ioutil_TempDir root tempDirPrefix (rand w) fs in
      let dir := if negb (HasSuffix dir PathSeparator) then dir +:+ PathSeparator else dir in
      ((dir, err), {| files := fs; rand := rnd |}).

(** The two ways of writing the temp data file. *)
Definition writeGzipData (tmpDataFile : string) (data : bytes) : M unit :=
  f <- createFile tmpDataFile ;;
  match gzip.NewWriterLevel (GetGzipLevel opts) with
  | Err err => fail err
  | Ok writer => update (λ fs, file_Write fs f (gzip.Writer_Copy_Close fc writer data))
  end.

Definition writeRawData (tmpDataFile : string) (data : bytes) : M unit :=
  f <- createFile tmpDataFile ;;
  update (λ fs, file_Write fs f data).

(** The loop removing [data] and [data.gz] from the entry directory. *)
Fixpoint removeDataFiles (dir : string) (names : list string) : M unit :=
  match names with
  | [] => ret tt
  | file :: names' =>
      err <- syscall (λ fs, os_Remove fs (dir +:+ file)) ;;
      if bool_decide (err ≠ None) && negb (os_IsNotExist err)
      then match err with Some e => fail e | None => ret tt end
      else removeDataFiles dir names'
  end.

Definition return_err (err : option error) : M unit :=
  match err with
  | Some e => fail e
  | None => ret tt
  end.

Definition Write (ctx : Context) (key : Key) (data : bytes) : M unit :=
  checkpoint ctx 0 ;;
  let dir := GetDirForKey opts key in
  let keyFile := dir +:+ KeyFilename in
  st <- inspect (λ fs, os_Lstat fs keyFile) ;;
  (match st with
   | Ok _ => err <- inspect (λ fs, checkKeyCollision fs key keyFile) ;; return_err err
   | Err _ => ret tt
   end) ;;
  tmp <- (λ w, let '(r, w') := getTempDir w in (Ok r, w')) ;;
  let '(tmpdir, err) := tmp in
  return_err err ;;
  defer (λ fs, os_RemoveAll fs tmpdir)
    (checkpoint ctx 1 ;;
     (* Write temp key file *)
     let tmpKeyFile := tmpdir +:+ KeyFilename in
     (f <- createFile tmpKeyFile ;; update (λ fs, file_Write fs f key)) ;;
     checkpoint ctx 2 ;;
     (* Write temp data file *)
     let tmpDataFile :=
       if GetUseGzip opts then tmpdir +:+ GzipDataFilename else tmpdir +:+ DataFilename in
     let dataFile :=
       if GetUseGzip opts then dir +:+ GzipDataFilename else dir +:+ DataFilename in
     (if GetUseGzip opts
      then writeGzipData tmpDataFile data
      else writeRawData tmpDataFile data) ;;
     checkpoint ctx 3 ;;
     (* Move data file *)
     err <- syscall (λ fs, os_MkdirAll fs dir) ;;
     (if bool_decide (err ≠ None) && negb (os_IsExist err)
      then return_err err else ret tt) ;;
     removeDataFiles dir [DataFilename; GzipDataFilename] ;;
     err <- syscall (λ fs, os_Rename fs tmpDataFile dataFile) ;;
     return_err err ;;
     checkpoint ctx 4 ;;
     (* Move key file *)
     err <- syscall (λ fs, os_Rename fs tmpKeyFile keyFile) ;;
     return_err err).

Definition Delete (ctx : Context) (key : Key) : M unit :=
  checkpoint ctx 0 ;;
  let dir := GetDirForKey opts key in
  let keyFile := dir +:+ KeyFilename in
  st <- inspect (λ fs, os_Lstat fs keyFile) ;;
  if os_IsNotExist (error_of st) then fail (NoSuchKeyError key) else
  err <- inspect (λ fs, checkKeyCollision fs key keyFile) ;;
  return_err err ;;
  err <- syscall (λ fs, os_RemoveAll fs dir) ;;
  return_err err.

(** *** ScanKeys

    [filepath.Walk] runs against the file system as it finds it,
    which under concurrent mutation need not be the store a later
    system call sees. What the walk observes is given as a tree:
    entries whose [lstat] fails, non-directories, directories with
    their listing, and directories that cannot be listed. *)

#[warnings="-register-all"]
Inductive WalkTree :=
| WLstatErr (name : string) (err : error)
| WFile (name : string)
| WDir (name : string) (children : list WalkTree)
| WDirErr (name : string) (err : error).

Definition node_name (t : WalkTree) : string :=
  match t with
  | WLstatErr name _ | WFile name | WDir name _ | WDirErr name _ => name
  end.

Definition IsDir (t : WalkTree) : bool :=
  match t with
  | WDir _ _ | WDirErr _ _ => true
  | _ => false
  end.

(** A Go call either returns or panics. *)
Inductive outcome (A : Type) :=
| Returns (a : A)
| Panics.
Arguments Returns {A} a.
Arguments Panics {A}.

(** The state of a scan: the store, the number of polls of the
    context so far, and the keys handed to [keyFunc]. *)
Record Scan := { s_files : FS; s_polls : nat; s_keys : list Key }.

Definition KeyFunc : Type := Key → bool.
Definition ErrFunc : Type := string → error → bool.

(** Calling a nil function value panics. *)
Definition call_errFunc (errFunc : option ErrFunc) (path : string) (err : error)
  : outcome bool :=
  match errFunc with
  | Some f => Returns (f path err)
  | None => Panics
  end.

Definition WalkFunc : Type :=
  string → bool → option error → Scan → outcome (option error) * Scan.

(** The function literal [ScanKeys] passes to [filepath.Walk];
    [isDir] is [info.IsDir()]. *)
Definition scanFn (ctx : Context) (keyFunc : KeyFunc) (errFunc : option ErrFunc)
  : WalkFunc :=
  λ path isDir err s0,
    let s := {| s_files := s_files s0; s_polls := S (s_polls s0); s_keys := s_keys s0 |} in
    if ctx_Done ctx (s_polls s0) then (Returns (Some context_Canceled), s) else
    match err with
    | Some e =>
        match call_errFunc errFunc path e with
        | Panics => (Panics, s)
        | Returns true => (Returns (Some filepath_SkipDir), s)
        | Returns false => (Returns (Some e), s)
        end
    | None =>
        if isDir then
          (* Try remove empty directories. *)
          (Returns None,
           {| s_files := (os_Remove (s_files s) path).2;
              s_polls := s_polls s; s_keys := s_keys s |})
        else if String.eqb (filepath_Base path) KeyFilename then
          match readKey (s_files s) path with
          | Err e =>
              match call_errFunc errFunc path e with
              | Panics => (Panics, s)
              | Returns true => (Returns (Some filepath_SkipDir), s)
              | Returns false => (Returns (Some e), s)
              end
          | Ok key =>
              let ret := keyFunc key in
              let s := {| s_files := s_files s; s_polls := s_polls s;
                          s_keys := s_keys s ++ [key] |} in
              if negb ret then (Returns (Some errCanceled), s)
              else (Returns None, s)
          end
        else (Returns None, s)
    end.

(** The loop of [filepath.walk] over the entries of a directory:
    an entry whose [lstat] fails is reported to [walkFn], any other is
    walked; [SkipDir] ends the walk only when it comes from a
    non-directory. *)
Definition walk_names
  (walk : string → WalkTree → Scan → outcome (option error) * Scan)
  (walkFn : WalkFunc) (path : string)
  : list WalkTree → Scan → outcome (option error) * Scan :=
  fix loop (names : list WalkTree) (s : Scan) {struct names} :=
    match names with
    | [] => (Returns None, s)
    | c :: names' =>
        let filename := filepath_Join path (node_name c) in
        match c with
        | WLstatErr _ e =>
            match walkFn filename false (Some e) s with
            | (Returns None, s') => loop names' s'
            | (Returns (Some filepath_SkipDir), s') => loop names' s'
            | r => r
            end
        | _ =>
            match walk filename c s with
            | (Returns None, s') => loop names' s'
            | (Returns (Some filepath_SkipDir), s') =>
                if IsDir c then loop names' s'
                else (Returns (Some filepath_SkipDir), s')
            | r => r
            end
        end
    end.

(** [filepath.walk]: the directory itself, then its entries in
    order. *)
Fixpoint filepath_walk (walkFn : WalkFunc) (path : string) (t : WalkTree) (s : Scan)
  {struct t} : outcome (option error) * Scan :=
  match t with
  | WLstatErr _ e => walkFn path false (Some e) s
  | WFile _ => walkFn path false None s
  | WDirErr _ e => walkFn path true (Some e) s
  | WDir _ children =>
      match walkFn path true None s with
      | (Returns None, s') =>
          walk_names (filepath_walk walkFn) walkFn path children s'
      | r => r
      end
  end.

Definition filepath_Walk (root : string) (walkFn : WalkFunc) (t : WalkTree) (s : Scan)
  : outcome (option error) * Scan :=
  match filepath_walk walkFn root t s with
  | (Returns (Some filepath_SkipDir), s') => (Returns None, s')
  | r => r
  end.

Definition ScanKeys (ctx : Context) (keyFunc : KeyFunc) (errFunc : option ErrFunc)
  (observed : WalkTree) (fs : FS) : outcome (option error) * Scan :=
  let s := {| s_files := fs; s_polls := 1; s_keys := [] |} in
  if ctx_Done ctx 0 then (Returns (Some context_Canceled), s) else
  match filepath_Walk (GetRootDataDir opts) (scanFn ctx keyFunc errFunc) observed s with
  | (Returns (Some errCanceled), s') => (Returns None, s')
  | r => r
  end.

End Engine.

Arguments Returns {A} a.
Arguments Panics {A}.

(** The temp root is a sibling of the data root: no file of an entry is
    stored below the temp root. *)
Definition in_temp (opts : Options) (q : string) : bool :=
  under (clean (GetRootTempDir opts)) q.

Definition entry_outside_temp (opts : Options) (key : Key) : bool :=
  forallb (λ f, negb (in_temp opts (GetDirForKey opts key +:+ f)))
    [KeyFilename; DataFilename; GzipDataFilename].

(** Outcomes of a scan that carry no error reported by a node of the
    walk. *)
Definition no_node_error (r : outcome (option error)) : Prop :=
  r = Panics ∨ r = Returns None ∨
  r = Returns (Some context_Canceled) ∨ r = Returns (Some errCanceled).

(** Whether a path names an object of the store. *)
Definition exists_at (fs : FS) (path : string) : bool :=
  match os_Lstat fs path with
  | Ok _ => true
  | Err _ => false
  end.

(** The resolver's paths end with the separator: the files of an entry
    are stored below its directory. *)
Definition entry_below_dir (opts : Options) (key : Key) : bool :=
  forallb (λ f, under (clean (GetDirForKey opts key)) (clean (GetDirForKey opts key +:+ f)))
    [KeyFilename; DataFilename; GzipDataFilename].

(** The paths under which the three files of an entry are stored. *)
Definition entry_paths (opts : Options) (key : Key) : list string :=
  map (λ f, clean (GetDirForKey opts key +:+ f))
    [KeyFilename; DataFilename; GzipDataFilename].

(** Two stores hold the same regular files at the paths that satisfy
    [P]. *)
Definition same_files (P : string → Prop) (fs fs' : FS) : Prop :=
  ∀ q, P q → ∀ c, fs' !! q = Some (File c) ↔ fs !! q = Some (File c).

(** A key handed to [keyFunc] is the content of a file named [key]. *)
Definition key_file_of (fs : FS) (key : Key) : Prop :=
  ∃ path, filepath_Base path = KeyFilename ∧ fs !! clean path = Some (File key).

(** The paths under which a walk from [path] comes upon files named
    [key], in the order of the walk, and the paths of the directories
    it lists. *)
Fixpoint key_files (path : string) (t : WalkTree) : list string :=
  match t with
  | WFile _ => if String.eqb (filepath_Base path) KeyFilename then [path] else []
  | WDir _ children =>
      flat_map (λ c, key_files (filepath_Join path (node_name c)) c) children
  | _ => []
  end.

Fixpoint listed_dirs (path : string) (t : WalkTree) : list string :=
  match t with
  | WDir _ children =>
      path :: flat_map (λ c, listed_dirs (filepath_Join path (node_name c)) c) children
  | _ => []
  end.

(** The walk of a node of a store at rest: with errors ignored and
    every key accepted it hands over the keys held by the node's key
    files, and it does not end the walk of the directory it is in. *)
Definition delivers (keyFunc : KeyFunc) (f : ErrFunc) (fs : FS) (t : WalkTree) : Prop :=
  ∀ path s keys,
    same_files (λ _, True) fs (s_files s) →
    Forall (λ p, ∀ c, fs !! clean p ≠ Some (File c)) (listed_dirs path t) →
    Forall2 (λ p k, fs !! clean p = Some (File k)) (key_files path t) keys →
    ∃ r s', filepath_walk (scanFn Background keyFunc (Some f)) path t s = (r, s') ∧
            (r = Returns None ∨
             (r = Returns (Some filepath_SkipDir) ∧
              match t with WLstatErr _ _ | WDirErr _ _ => True | _ => False end)) ∧
            same_files (λ _, True) fs (s_files s') ∧ s_keys s' = s_keys s ++ keys.

(** [stable P D fs fs']: at every path that satisfies [P] the store
    [fs'] holds what [fs] holds, or a directory where [fs] holds
    nothing and [D] allows one to be made. *)
Definition stable (P D : string → Prop) (fs fs' : FS) : Prop :=
  ∀ q, P q → fs' !! q = fs !! q ∨ (D q ∧ fs !! q = None ∧ fs' !! q = Some Dir).

(** A call changes the store within a relation, however it ends. *)
Definition preserves {A} (R : FS → FS → Prop) (m : M A) : Prop :=
  ∀ w r w', m w = (r, w') → R (files w) (files w').

End local.

(** ** Error batches (package [errbatch]) *)

Module errbatch.

(** Modelled from the spec: the error batch used by the remote
    [Delete], whose package is not part of the sources at hand
    (section 4.2: "a compiled error batch of any non-NotExist failures
    (possibly empty → ok)"). Adding a nil error adds nothing; an empty
    batch compiles to nil. *)
Definition ErrBatch : Type := list error.

Definition NewErrBatch : ErrBatch := [].

Definition Add (eb : ErrBatch) (err : option error) : ErrBatch :=
  match err with
  | None => eb
  | Some e => eb ++ [e]
  end.

Definition Compile (eb : ErrBatch) : option error :=
  match eb with
  | [] => None
  | _ => Some (BatchError eb)
  end.

End errbatch.

(** ** The remote tier (package [remote]) *)

Module remote.

(** What a bucket hands back from [Read]: a stream that yields some
    bytes and then ends, cleanly or with an error. *)
Record Stream := { s_data : bytes; s_err : option error }.

(** The calls the remote tier makes on its two collaborators, the
    [fsdb.Local] and the [bucket.Bucket] it was opened with, each with
    the type of what the call returns. *)
Inductive Action : Type → Type :=
| LocalRead (key : Key) : Action (result local.ReadCloser)
| LocalWrite (key : Key) (data : bytes) : Action (option error)
| LocalDelete (key : Key) : Action (option error)
| BucketRead (name : string) : Action (result Stream)
| BucketWrite (name : string) (data : bytes) : Action (option error)
| BucketDelete (name : string) : Action (option error).

(** A method body: straight-line Go code between the calls. *)
Inductive Prog (A : Type) : Type :=
| Ret (a : A)
| Do {R : Type} (act : Action R) (k : R → Prog A).
Arguments Ret {A} a.
Arguments Do {A R} act k.

Fixpoint bind {A B} (m : Prog A) (f : A → Prog B) : Prog B :=
  match m with
  | Ret a => f a
  | Do act k => Do act (λ r, bind (k r) f)
  end.

Definition call {R} (act : Action R) : Prog R := Do act Ret.

Notation "x <- m ;; k" := (bind m (λ x, k))
  (at level 100, m at next level, right associativity).

(** A call together with what it returned. *)
Inductive Event :=
| Called {R : Type} (act : Action R) (resp : R).

(** An implementation of the two collaborators over some state. *)
Definition Handler (S : Type) : Type := ∀ R, Action R → S → R * S.

Fixpoint run {S A} (h : Handler S) (p : Prog A) (s : S) : A * S * list Event :=
  match p with
  | Ret a => (a, s, [])
  | Do act k =>
      let '(r, s1) := h _ act s in
      let '(a, s2, tr) := run h (k r) s1 in
      (a, s2, Called act r :: tr)
  end.

(** Modelled from the spec: the option set of the remote tier, whose
    declaration is not part of the sources at hand (section 6: skip
    predicate and remote-name function; period, worker count and
    logger play no part here). *)
Record Options := {
  GetRemoteName : Key → string;
  SkipKey : Key → bool
}.

Definition atomic_AddInt64 (addr delta : Z) : Z :=
  ((addr + delta + 2 ^ 63) mod 2 ^ 64 - 2 ^ 63)%Z.

(** The four counters of a scan. *)
Record Counters := { scanned : Z; skipped : Z; uploaded : Z; failed : Z }.

Section Tier.

Context (fc : FlateCodec) (opts : Options).

(** [db.bucket.IsNotExist]. *)
Context (IsNotExist : option error → bool).

Definition crc32cTable : N → N := crc32_MakeTable crc32_Castagnoli.

(** [io.Copy(buf, remoteData)] into a fresh buffer. *)
Definition io_Copy (src : Stream) : result bytes :=
  match s_err src with
  | Some err => Err err
  | None => Ok (s_data src)
  end.

Definition Read (key : Key) : Prog (result local.ReadCloser) :=
  r <- call (LocalRead key) ;;
  match r with
  | Ok data => Ret (Ok data)
  | Err err =>
      if negb (IsNoSuchKeyError (Some err)) then Ret (Err err) else
      remote <- call (BucketRead (GetRemoteName opts key)) ;;
      if negb (IsNotExist (local.error_of remote)) then
        match remote with
        | Err err => Ret (Err err)
        | Ok remoteData =>
            (* Download completely *)
            match io_Copy remoteData with
            | Err err => Ret (Err err)
            | Ok buf =>
                (* Read from local again *)
                r <- call (LocalRead key) ;;
                match r with
                | Ok data => Ret (Ok data)
                | Err _ =>
                    match gzip.NewReader buf with
                    | Err err => Ret (Err err)
                    | Ok gzipReader =>
                        (* the header has been read off [buf] *)
                        let buf := gzip.unread gzipReader in
                        err <- call (LocalWrite key buf) ;;
                        match err with
                        | Some err => Ret (Err err)
                        | None => call (LocalRead key)
                        end
                    end
                end
            end
        end
      else call (LocalRead key)
  end.

Definition Delete (key : Key) : Prog (option error) :=
  let existNeither := true in
  let ret := errbatch.NewErrBatch in
  err <- call (LocalDelete key) ;;
  let '(existNeither, ret) :=
    if negb (IsNoSuchKeyError err) then (false, errbatch.Add ret err)
    else (existNeither, ret) in
  err <- call (BucketDelete (GetRemoteName opts key)) ;;
  let '(existNeither, ret) :=
    if negb (IsNotExist err) then (false, errbatch.Add ret err)
    else (existNeither, ret) in
  if existNeither then Ret (Some (NoSuchKeyError key))
  else Ret (errbatch.Compile ret).

Definition Write (key : Key) (data : bytes) : Prog (option error) :=
  call (LocalWrite key data).

Definition readAndGzip (key : Key) : Prog (N * bytes * option error) :=
  r <- call (LocalRead key) ;;
  match r with
  | Err err => Ret (0%N, [], Some err)
  | Ok reader =>
      let buf : bytes := [] in
      match gzip.NewWriterLevel gzip.BestCompression with
      | Err err => Ret (0%N, [], Some err)
      | Ok gzipWriter =>
          (* io.Copy(buf, reader) *)
          match local.ioutil_ReadAll fc reader with
          | Err err => Ret (0%N, [], Some err)
          | Ok copied =>
              let buf := buf ++ copied in
              (* gzipWriter.Flush() *)
              let buf := buf ++ (gzip.Writer_Flush gzipWriter).1 in
              let content := buf in
              Ret (crc32_Checksum content crc32cTable, content, None)
          end
      end
  end.

Definition uploadKey (key : Key) : Prog (option error) :=
  old <- readAndGzip key ;;
  let '(oldCrc, content, err) := old in
  match err with
  | Some _ => Ret err
  | None =>
      err <- call (BucketWrite (GetRemoteName opts key) content) ;;
      match err with
      | Some _ => Ret err
      | None =>
          (* check crc again before deleting *)
          new <- readAndGzip key ;;
          let '(newCrc, _, err) := new in
          match err with
          | Some _ => Ret err
          | None =>
              if (newCrc =? oldCrc)%N then call (LocalDelete key)
              else Ret None
          end
      end
  end.

(** The body of a worker's loop in [scanLoop], for one key taken
    from the channel. *)
Definition worker_key (key : Key) (c : Counters) : Prog Counters :=
  let c := {| scanned := atomic_AddInt64 (scanned c) 1; skipped := skipped c;
              uploaded := uploaded c; failed := failed c |} in
  if SkipKey opts key then
    Ret {| scanned := scanned c; skipped := atomic_AddInt64 (skipped c) 1;
           uploaded := uploaded c; failed := failed c |}
  else
    err <- uploadKey key ;;
    match err with
    | Some _ =>
        Ret {| scanned := scanned c; skipped := skipped c;
               uploaded := uploaded c; failed := atomic_AddInt64 (failed c) 1 |}
    | None =>
        Ret {| scanned := scanned c; skipped := skipped c;
               uploaded := atomic_AddInt64 (uploaded c) 1; failed := failed c |}
    end.

(** A worker draining the keys it receives. *)
Fixpoint worker (keys : list Key) (c : Counters) : Prog Counters :=
  match keys with
  | [] => Ret c
  | key :: keys' => c' <- worker_key key c ;; worker keys' c'
  end.

End Tier.

(** *** A database to run the tier against

    The local engine on a file store, called without cancellation,
    next to a bucket that keeps its objects in a map and follows the
    bucket contract of the spec (section 6): [Read] of a missing name
    and [Delete] of a missing name report an error that [IsNotExist]
    recognises, [Write] overwrites. *)

Record Store := { local_world : local.World; objects : gmap string bytes }.

Definition mock_IsNotExist (err : option error) : bool := os_IsNotExist err.

Definition serve (fc : FlateCodec) (lopts : local.Options) : Handler Store :=
  λ R act s,
    match act in Action R return R * Store with
    | LocalRead key =>
        (local.Read lopts (local.files (local_world s)) Background key, s)
    | LocalWrite key data =>
        let '(r, w) := local.Write fc lopts Background key data (local_world s) in
        (local.error_of r, {| local_world := w; objects := objects s |})
    | LocalDelete key =>
        let '(r, w) := local.Delete lopts Background key (local_world s) in
        (local.error_of r, {| local_world := w; objects := objects s |})
    | BucketRead name =>
        (match objects s !! name with
         | Some data => Ok {| s_data := data; s_err := None |}
         | None => Err (PathError "open" name ENOENT)
         end, s)
    | BucketWrite name data =>
        (None, {| local_world := local_world s; objects := <[name := data]> (objects s) |})
    | BucketDelete name =>
        (match objects s !! name with
         | Some _ => None
         | None => Some (PathError "remove" name ENOENT)
         end,
         {| local_world := local_world s; objects := delete name (objects s) |})
    end.

(** Whether a trace contains a call of [Local.Delete] on the key. *)
Definition is_LocalDelete (key : Key) (e : Event) : bool :=
  match e with
  | Called act _ =>
      match act with
      | LocalDelete k => Key_Equals key k
      | _ => false
      end
  end.

Definition deletes_local (key : Key) (tr : list Event) : bool :=
  existsb (is_LocalDelete key) tr.

(** Whether a trace contains a call of [Local.Write], and whether it
    contains any call on the bucket. *)
Definition is_LocalWrite (e : Event) : bool :=
  match e with
  | Called act _ =>
      match act with
      | LocalWrite _ _ => true
      | _ => false
      end
  end.

Definition writes_local (tr : list Event) : bool := existsb is_LocalWrite tr.

Definition is_bucket_call (e : Event) : bool :=
  match e with
  | Called act _ =>
      match act with
      | BucketRead _ | BucketWrite _ _ | BucketDelete _ => true
      | _ => false
      end
  end.

Definition calls_bucket (tr : list Event) : bool := existsb is_bucket_call tr.

(** Calls that remove stored data or replace what the bucket holds:
    [Local.Delete], [Bucket.Write] and [Bucket.Delete]. *)
Definition is_removal_or_upload (e : Event) : bool :=
  match e with
  | Called act _ =>
      match act with
      | LocalDelete _ | BucketWrite _ _ | BucketDelete _ => true
      | _ => false
      end
  end.

(** Foreground calls of other goroutines, running between the calls of
    a background one: before each call of the program, the next entry
    of the schedule is run against the state. *)
Inductive Foreground :=
| Idle
| ForegroundWrite (key : Key) (data : bytes)
| ForegroundDelete (key : Key).

Definition foreground {S} (h : Handler S) (opts : Options)
  (IsNotExist : option error → bool) (f : Foreground) (s : S) : S :=
  match f with
  | Idle => s
  | ForegroundWrite key data => (run h (Write key data) s).1.2
  | ForegroundDelete key => (run h (Delete opts IsNotExist key) s).1.2
  end.

Definition interleaved {S} (h : Handler S) (opts : Options)
  (IsNotExist : option error → bool) : Handler (S * list Foreground) :=
  λ R act st,
    let '(s, sched) := st in
    let s := match sched with f :: _ => foreground h opts IsNotExist f s | [] => s end in
    let '(r, s') := h R act s in
    (r, (s', tail sched)).

End remote.

(** ** A DEFLATE codec of stored blocks

    RFC 1951, section 3.2.4: the data is carried in uncompressed blocks
    of at most 65535 bytes, closed by an empty final block, which is the
    shape of the output of a writer at level [NoCompression]. The
    decoder accepts stored blocks only. *)

Module stored.

Definition maxStoreBlockSize : nat := N.to_nat 65535.

Definition block (final : bool) (chunk : bytes) : bytes :=
  (if final then x01 else x00)
    :: PutUint16 (N.of_nat (length chunk))
    ++ PutUint16 (65535 - N.of_nat (length chunk))
    ++ chunk.

Fixpoint blocks (fuel : nat) (data : bytes) : bytes :=
  match fuel with
  | O => block true []
  | S fuel' =>
      match data with
      | [] => block true []
      | _ =>
          block false (take maxStoreBlockSize data)
            ++ blocks fuel' (drop maxStoreBlockSize data)
      end
  end.

Definition deflate (level : Z) (data : bytes) : bytes :=
  blocks (length data) data.

Fixpoint inflate_blocks (fuel : nat) (input : bytes) : result (bytes * bytes) :=
  match fuel with
  | O => Err flate_CorruptInput
  | S fuel' =>
      match input with
      | hdr :: l0 :: l1 :: n0 :: n1 :: rest =>
          if negb (N.land (Byte.to_N hdr) 6 =? 0)%N then Err flate_CorruptInput
          else if negb (Uint16 n0 n1 =? 65535 - Uint16 l0 l1)%N then Err flate_CorruptInput
          else
            match read_full (N.to_nat (Uint16 l0 l1)) rest with
            | None => Err io_ErrUnexpectedEOF
            | Some (chunk, rest') =>
                if N.odd (Byte.to_N hdr) then Ok (chunk, rest')
                else match inflate_blocks fuel' rest' with
                     | Ok (more, rest'') => Ok (chunk ++ more, rest'')
                     | Err e => Err e
                     end
            end
      | _ => Err io_ErrUnexpectedEOF
      end
  end.

Definition inflate (input : bytes) : result (bytes * bytes) :=
  inflate_blocks (S (length input)) input.

End stored.

Definition stored_codec : FlateCodec :=
  {| deflate := stored.deflate; inflate := stored.inflate |}.

(** ** A concrete database

    Data below [/db/data/], temp files below [/db/tmp/], one directory
    per key named after the key; objects in the bucket named after the
    key. [crowded] is the same database with a resolver sending every
    key to the same directory. *)

Module example.

Definition lopts (gz : bool) : local.Options :=
  {| local.GetRootDataDir := "/db/data/";
     local.GetRootTempDir := "/db/tmp/";
     local.GetDirForKey := λ key, "/db/data/" +:+ String.string_of_list_byte key +:+ "/";
     local.GetUseGzip := gz;
     local.GetGzipLevel := gzip.DefaultCompression |}.

Definition crowded : local.Options :=
  {| local.GetRootDataDir := "/db/data/";
     local.GetRootTempDir := "/db/tmp/";
     local.GetDirForKey := λ _, "/db/data/00/";
     local.GetUseGzip := false;
     local.GetGzipLevel := gzip.DefaultCompression |}.

Definition ropts : remote.Options :=
  {| remote.GetRemoteName := String.string_of_list_byte;
     remote.SkipKey := λ _, false |}.

Definition foo : Key := String.list_byte_of_string "foo".
Definition bar : bytes := String.list_byte_of_string "bar".
Definition baz : bytes := String.list_byte_of_string "baz".

Definition fresh : local.World :=
  {| local.files := ∅; local.rand := ["1"; "2"; "3"; "4"] |}.

(** The world after [Write(foo, bar)] on the fresh database. *)
Definition written (gz : bool) : local.World :=
  (local.Write stored_codec (lopts gz) Background foo bar fresh).2.

(** The world after a further [Write(foo, baz)] with compression
    switched on, over the entry written without it. *)
Definition rewritten : local.World :=
  (local.Write stored_codec (lopts true) Background foo baz (written false)).2.

Definition db (gz : bool) : remote.Handler remote.Store :=
  remote.serve stored_codec (lopts gz).

(** [foo] held locally only. *)
Definition local_only (gz : bool) : remote.Store :=
  {| remote.local_world := written gz; remote.objects := ∅ |}.

(** [foo] held by the bucket only, as a gzip file of [bar]. *)
Definition bar_gz : bytes :=
  gzip.Writer_Copy_Close stored_codec
    {| gzip.w_level := gzip.BestCompression; gzip.wroteHeader := false |} bar.

Definition remote_only : remote.Store :=
  {| remote.local_world := fresh; remote.objects := {[ "foo" := bar_gz ]} |}.

(** The database with foreground calls scheduled between the calls of
    a background one. *)
Definition busy : remote.Handler (remote.Store * list remote.Foreground) :=
  remote.interleaved (db false) ropts remote.mock_IsNotExist.

(** The crowded database after [Write(foo, bar)]. *)
Definition crowded_written : local.World :=
  (local.Write stored_codec crowded Background foo bar fresh).2.

Definition zero : remote.Counters :=
  {| remote.scanned := 0; remote.skipped := 0; remote.uploaded := 0; remote.failed := 0 |}.

(** The world after [Delete(foo)] on the database holding [foo]. *)
Definition deleted : local.World :=
  (local.Delete (lopts false) Background foo (written false)).2.

(** The world after a [Write(foo, baz)] over [foo ↦ bar] whose context
    is done by the fourth poll. *)
Definition cancelled : local.World :=
  (local.Write stored_codec (lopts false) (DoneAt 3) foo baz (written false)).2.

(** The world holding [foo ↦ bar] and, under the key [bar], [baz]. *)
Definition both : local.World :=
  (local.Write stored_codec (lopts false) Background bar baz (written false)).2.

(** What a walk of the data root of [written false] observes. *)
Definition observed_written : local.WalkTree :=
  local.WDir "data" [local.WDir "foo" [local.WFile "data"; local.WFile "key"]].

(** The remote options of a database that uploads nothing. *)
Definition skip_all : remote.Options :=
  {| remote.GetRemoteName := String.string_of_list_byte;
     remote.SkipKey := λ _, true |}.

(** The database after the upload of [foo]. *)
Definition uploaded_foo : remote.Store :=
  (remote.run (db false) (remote.uploadKey stored_codec ropts foo) (local_only false)).1.2.

End example.

(** * Properties *)

(** ** Strings and paths *)

Lemma append_cons (x : ascii) (a b : string) : String x a +:+ b = String x (a +:+ b).
Proof. reflexivity. Qed.

Lemma append_assoc (a b c : string) : (a +:+ b) +:+ c = a +:+ (b +:+ c).
Proof.
  induction a as [|x a IH]; [done|].
  by rewrite !append_cons, IH.
Qed.

Lemma append_inj_l (a b c : string) : a +:+ b = a +:+ c → b = c.
Proof.
  induction a; [done|]. rewrite !append_cons. intros [=]. auto.
Qed.

Lemma prefix_append (a b : string) : String.prefix a (a +:+ b) = true.
Proof.
  induction a as [|x a IH]; [by destruct b|].
  rewrite append_cons. cbn. by destruct (Ascii.ascii_dec x x).
Qed.

Lemma prefix_inv (a q : string) :
  String.prefix a q = true → ∃ r, q = a +:+ r.
Proof.
  revert q. induction a as [|x a IH]; intros q H.
  - by exists q.
  - destruct q as [|y q]; cbn in H; [done|].
    destruct (Ascii.ascii_dec x y) as [->|]; [|done].
    destruct (IH _ H) as [r ->]. by exists r.
Qed.

Lemma prefix_trans (a b q : string) :
  String.prefix a b = true → String.prefix b q = true → String.prefix a q = true.
Proof.
  intros [r ->]%prefix_inv [r' ->]%prefix_inv.
  rewrite append_assoc. apply prefix_append.
Qed.

Lemma clean_cons_nonempty (c : ascii) (r : string) :
  c ≠ "/"%char → clean (String c r) ≠ "".
Proof.
  intros Hc. cbn. destruct (clean r); [|done].
  destruct (Ascii.eqb_spec c "/"); done.
Qed.

(** A path that ends in a proper file name is stored as it is spelled. *)
Lemma clean_append (a b : string) :
  clean b ≠ "" → clean (a +:+ b) = a +:+ clean b.
Proof.
  intros Hb. induction a as [|x a IH]; [done|].
  rewrite !append_cons. cbn. rewrite IH.
  destruct (a +:+ clean b) eqn:E; [|done].
  destruct a; [done|discriminate].
Qed.

(** ** The file store *)

Lemma mkdirs_files path ds : ∀ (fs fs' : FS) err q c,
  mkdirs path ds fs = (err, fs') → fs !! q = Some (File c) → fs' !! q = Some (File c).
Proof.
  induction ds as [|d ds IH]; intros fs fs' err q c H Hq; cbn in H.
  - by inversion H; subst.
  - destruct (fs !! d) as [[|]|] eqn:E.
    + by inversion H; subst.
    + eauto.
    + eapply IH; [done|]. rewrite lookup_insert_ne; [done|congruence].
Qed.

Lemma os_Remove_spec (fs fs' : FS) path err :
  os_Remove fs path = (err, fs') →
  (err = None ∧ fs' = delete (clean path) fs) ∨
  (os_IsNotExist err = true ∧ fs' = fs ∧ fs !! clean path = None) ∨
  (err ≠ None ∧ os_IsNotExist err = false ∧ fs' = fs).
Proof.
  unfold os_Remove. intros H.
  destruct (fs !! clean path) as [[|]|]; [| destruct (has_children _ _) |];
    inversion H; subst; auto 6.
Qed.

Lemma os_Rename_spec (fs fs' : FS) old new :
  os_Rename fs old new = (None, fs') →
  ∃ c, fs !! clean old = Some (File c) ∧
       fs' = <[clean new := File c]> (delete (clean old) fs).
Proof.
  unfold os_Rename. intros H.
  destruct (fs !! clean old) as [[c|]|]; [|done..].
  exists c. destruct (fs !! clean new) as [[|]|]; inversion H; done.
Qed.

Lemma os_RemoveAll_lookup (fs : FS) path q :
  (os_RemoveAll fs path).2 !! q =
  if bool_decide (q = clean path) || under (clean path) q then None else fs !! q.
Proof.
  unfold os_RemoveAll. cbn [snd].
  destruct (bool_decide (q = clean path)) eqn:E1; cbn [orb].
  - apply bool_decide_eq_true in E1. apply map_lookup_filter_None_2.
    right. intros x _ [H _]. by apply H.
  - apply bool_decide_eq_false in E1.
    destruct (under (clean path) q) eqn:E2.
    + apply map_lookup_filter_None_2. right. intros x _ [_ H]. apply H.
      cbn [fst]. by rewrite E2.
    + destruct (fs !! q) as [x|] eqn:E3.
      * apply map_lookup_filter_Some_2; [done|]. split; [done|].
        cbn [fst]. rewrite E2. by intros [].
      * apply map_lookup_filter_None_2. by left.
Qed.

(** ** Encodings *)

Lemma to_N_byte_of_N (n : N) : Byte.to_N (byte_of_N n) = (n mod 256)%N.
Proof.
  unfold byte_of_N.
  destruct (Byte.of_N (n mod 256)) as [b|] eqn:E.
  - by apply Byte.to_of_N.
  - apply Byte.of_N_None_iff in E.
    pose proof (N.mod_upper_bound n 256). lia.
Qed.

Lemma Uint16_PutUint16 (n : N) :
  (n < 65536)%N → Uint16 (byte_of_N n) (byte_of_N (N.shiftr n 8)) = n.
Proof.
  intros Hn. unfold Uint16. rewrite !to_N_byte_of_N.
  rewrite N.shiftr_div_pow2. change (2 ^ 8)%N with 256%N.
  rewrite (N.mod_small (n / 256) 256).
  - rewrite N.add_comm. symmetry. apply N.Div0.div_mod.
  - apply N.Div0.div_lt_upper_bound. lia.
Qed.

Lemma read_full_app (chunk rest : bytes) :
  read_full (length chunk) (chunk ++ rest) = Some (chunk, rest).
Proof.
  unfold read_full. rewrite decide_True by (rewrite length_app; lia).
  by rewrite take_app_length, drop_app_length.
Qed.

(** ** The stored-block codec is lossless *)

Lemma inflate_block (final : bool) (chunk rest : bytes) fuel :
  (N.of_nat (length chunk) < 65536)%N →
  stored.inflate_blocks (S fuel) (stored.block final chunk ++ rest) =
  if final then Ok (chunk, rest)
  else match stored.inflate_blocks fuel rest with
       | Ok (more, rest'') => Ok (chunk ++ more, rest'')
       | Err e => Err e
       end.
Proof.
  intros Hlen. unfold stored.block, PutUint16.
  cbn [app stored.inflate_blocks].
  rewrite !Uint16_PutUint16 by lia.
  replace (N.land (Byte.to_N (if final then x01 else x00)) 6 =? 0)%N with true
    by (by destruct final).
  rewrite N.eqb_refl. cbn [negb].
  rewrite Nat2N.id, read_full_app.
  by destruct final.
Qed.

Lemma inflate_blocks_blocks fuel : ∀ (data rest : bytes) g,
  length data ≤ fuel → fuel ≤ g →
  stored.inflate_blocks (S g) (stored.blocks fuel data ++ rest) = Ok (data, rest).
Proof.
  induction fuel as [|fuel IH]; intros data rest g Hd Hg.
  - destruct data; [|cbn [length] in Hd; lia].
    cbn [stored.blocks]. by rewrite inflate_block.
  - cbn [stored.blocks]. destruct data as [|b data].
    + by rewrite inflate_block.
    + assert (N.of_nat (length (take stored.maxStoreBlockSize (b :: data))) < 65536)%N
        by (rewrite length_take; unfold stored.maxStoreBlockSize; lia).
      rewrite <- app_assoc, inflate_block by done.
      destruct g as [|g]; [lia|].
      rewrite IH.
      * by rewrite take_drop.
      * rewrite length_drop. cbn [length] in *. unfold stored.maxStoreBlockSize. lia.
      * lia.
Qed.

Lemma length_blocks fuel : ∀ data : bytes,
  length data ≤ fuel → length data ≤ length (stored.blocks fuel data).
Proof.
  induction fuel as [|fuel IH]; intros data Hd.
  - destruct data; cbn [length] in *; lia.
  - destruct data as [|b data]; [cbn [length]; lia|].
    cbn [stored.blocks]. unfold stored.block, PutUint16.
    cbn [app length]. rewrite !length_app.
    specialize (IH (drop stored.maxStoreBlockSize (b :: data))).
    rewrite length_drop in IH. rewrite length_take.
    cbn [length] in *. unfold stored.maxStoreBlockSize in *. lia.
Qed.

Lemma stored_lossless : lossless stored_codec.
Proof.
  intros level data rest. cbn [deflate inflate stored_codec].
  unfold stored.inflate, stored.deflate.
  apply inflate_blocks_blocks; [done|].
  rewrite length_app. pose proof (length_blocks (length data) data). lia.
Qed.

(** ** gzip: reading back what a writer wrote *)

Lemma readHeader_header (level : Z) (rest : bytes) :
  gzip.readHeader (gzip.header level ++ rest) = Ok rest.
Proof.
  unfold gzip.readHeader.
  change 10 with (length (gzip.header level)). rewrite read_full_app.
  reflexivity.
Qed.

Lemma ReadAll_member (fc : FlateCodec) (level : Z) (data : bytes) :
  lossless fc →
  gzip.ReadAll fc {| gzip.unread := deflate fc level data ++ gzip.trailer data |}
  = Ok data.
Proof.
  intros Hfc. unfold gzip.ReadAll. cbn [gzip.unread gzip.read_members].
  rewrite Hfc.
  replace (read_full 8 (gzip.trailer data)) with (Some (gzip.trailer data, @nil byte)).
  - by rewrite bool_decide_eq_true_2.
  - rewrite <- (app_nil_r (gzip.trailer data)) at 2.
    change 8 with (length (gzip.trailer data)). by rewrite read_full_app.
Qed.

Lemma gzip_roundtrip (fc : FlateCodec) (level : Z) (writer : gzip.Writer) (data : bytes) :
  lossless fc →
  gzip.NewWriterLevel level = Ok writer →
  ∃ reader, gzip.NewReader (gzip.Writer_Copy_Close fc writer data) = Ok reader ∧
            gzip.ReadAll fc reader = Ok data.
Proof.
  intros Hfc Hw. unfold gzip.NewWriterLevel in Hw.
  destruct (_ || _)%bool; [done|]. inversion Hw; subst; clear Hw.
  unfold gzip.Writer_Copy_Close, gzip.NewReader. cbn [gzip.wroteHeader gzip.w_level].
  rewrite readHeader_header. eexists; split; [done|].
  by apply ReadAll_member.
Qed.

(** ** The local engine *)

Section LocalProperties.

Import local.

Context (fc : FlateCodec) (opts : Options).

Lemma bind_Ok {A B} (m : M A) (k : A → M B) w b w' :
  bind m k w = (Ok b, w') → ∃ a w1, m w = (Ok a, w1) ∧ k a w1 = (Ok b, w').
Proof.
  unfold bind. destruct (m w) as [[a|e] w1]; [eauto|done].
Qed.

Lemma checkpoint_Ok ctx i w u w' :
  checkpoint ctx i w = (Ok u, w') → ctx_Done ctx i = false ∧ w' = w.
Proof.
  unfold checkpoint. destruct (ctx_Done ctx i); cbn; [done|]. by intros [= <- <-].
Qed.

Lemma return_err_Ok err w u w' :
  return_err err w = (Ok u, w') → err = None ∧ w' = w.
Proof. destruct err; cbn; [done|]. by intros [= <- <-]. Qed.

Lemma createFile_Ok path w f w' :
  createFile path w = (Ok f, w') →
  f = clean path ∧ files w' = <[clean path := File []]> (files w).
Proof.
  unfold createFile, bind, syscall, os_OpenFile_create_trunc.
  destruct (files w !! clean path) as [[|]|]; cbn; intros [= <- <-]; done.
Qed.

Lemma write_file_Ok path (data : bytes) w u w' :
  (f <- createFile path ;; update (λ fs, file_Write fs f data)) w = (Ok u, w') →
  files w' = <[clean path := File data]> (files w).
Proof.
  intros (f & w1 & Hc & Hu)%bind_Ok.
  apply createFile_Ok in Hc as (-> & Hf).
  unfold update in Hu. inversion Hu; subst; cbn.
  rewrite Hf. unfold file_Write.
  apply map_eq. intros q. destruct (decide (clean path = q)) as [<-|].
  - by rewrite lookup_alter_eq, !lookup_insert_eq.
  - by rewrite lookup_alter_ne, !lookup_insert_ne.
Qed.

Lemma writeData_Ok tmpDataFile data w (u : unit) w' :
  (if GetUseGzip opts
   then writeGzipData fc opts tmpDataFile data
   else writeRawData tmpDataFile data) w = (Ok u, w') →
  ∃ enc, files w' = <[clean tmpDataFile := File enc]> (files w) ∧
    if GetUseGzip opts
    then ∃ writer, gzip.NewWriterLevel (GetGzipLevel opts) = Ok writer ∧
                   enc = gzip.Writer_Copy_Close fc writer data
    else enc = data.
Proof.
  destruct (GetUseGzip opts).
  - unfold writeGzipData. intros (f & w1 & Hc & Hu)%bind_Ok.
    destruct (gzip.NewWriterLevel (GetGzipLevel opts)) as [writer|] eqn:E; [|done].
    exists (gzip.Writer_Copy_Close fc writer data). split; [|eauto].
    eapply write_file_Ok. unfold bind. rewrite Hc. exact Hu.
  - unfold writeRawData. intros H%write_file_Ok. eauto.
Qed.

Lemma MkdirAll_step dir w10 w12 w13 err (u : unit) :
  syscall (λ fs, os_MkdirAll fs dir) w10 = (Ok err, w12) →
  (if bool_decide (err ≠ None) && negb (os_IsExist err)
   then return_err err else ret tt) w12 = (Ok u, w13) →
  ∀ q c, files w10 !! q = Some (File c) → files w13 !! q = Some (File c).
Proof.
  intros Hmk Hmk' q c Hq.
  unfold syscall in Hmk.
  destruct (os_MkdirAll (files w10) dir) as [e fs] eqn:E.
  inversion Hmk; subst; clear Hmk.
  assert (w13 = {| files := fs; rand := rand w10 |}) as ->.
  { destruct (bool_decide _ && _); [by apply return_err_Ok in Hmk' as [_ ->]|].
    by inversion Hmk'. }
  cbn. eapply mkdirs_files; [exact E|done].
Qed.

Lemma remove_step path (k : M unit) w u w' :
  (err <- syscall (λ fs, os_Remove fs path) ;;
   if bool_decide (err ≠ None) && negb (os_IsNotExist err)
   then match err with Some e => fail e | None => ret tt end
   else k) w = (Ok u, w') →
  ∃ w1, files w1 !! clean path = None ∧
        (∀ q, q ≠ clean path → files w1 !! q = files w !! q) ∧
        k w1 = (Ok u, w').
Proof.
  intros (err & w1 & Hs & Hk)%bind_Ok.
  unfold syscall in Hs. destruct (os_Remove (files w) path) as [err' fs'] eqn:Hr.
  inversion Hs; subst. clear Hs.
  apply os_Remove_spec in Hr as [(-> & ->)|[(Hne & -> & Hnone)|(Hne & Hn & ->)]].
  - cbn in Hk. eexists; split; [|split; [|exact Hk]]; cbn.
    + apply lookup_delete_eq.
    + intros q Hq. by apply lookup_delete_ne.
  - rewrite Hne in Hk. rewrite andb_false_r in Hk.
    eexists; split; [|split; [|exact Hk]]; cbn; done.
  - rewrite Hn in Hk. rewrite bool_decide_eq_true_2 in Hk by done. cbn in Hk.
    destruct err; done.
Qed.

(** After the removal loop neither data file is left. *)
Lemma removeDataFiles_Ok dir w u w' :
  removeDataFiles dir [DataFilename; GzipDataFilename] w = (Ok u, w') →
  files w' !! clean (dir +:+ DataFilename) = None ∧
  files w' !! clean (dir +:+ GzipDataFilename) = None ∧
  (∀ q, q ≠ clean (dir +:+ DataFilename) → q ≠ clean (dir +:+ GzipDataFilename) →
        files w' !! q = files w !! q).
Proof.
  cbn [removeDataFiles].
  intros (w1 & H1 & F1 & (w2 & H2 & F2 & Hk)%remove_step)%remove_step.
  inversion Hk; subst. clear Hk. split; [|split].
  - destruct (decide (clean (dir +:+ DataFilename) = clean (dir +:+ GzipDataFilename))) as [E|E].
    + by rewrite E.
    + by rewrite F2.
  - done.
  - intros q Hq1 Hq2. by rewrite F2, F1.
Qed.

Lemma Rename_step old new w w' :
  syscall (λ fs, os_Rename fs old new) w = (Ok None, w') →
  ∃ c, files w !! clean old = Some (File c) ∧
       files w' = <[clean new := File c]> (delete (clean old) (files w)).
Proof.
  unfold syscall. destruct (os_Rename (files w) old new) as [e fs] eqn:E.
  intros [= -> <-]. apply os_Rename_spec in E as (c & ? & ->). eauto.
Qed.

(** *** Where the temp directory is *)

Lemma ioutil_TempDir_Ok dir rnd : ∀ (fs : FS) name rnd' fs',
  ioutil_TempDir dir tempDirPrefix rnd fs = ((name, None), (rnd', fs')) →
  ∃ r, name = (clean dir +:+ "/") +:+ String "f" r.
Proof.
  induction rnd as [|suffix rnd IH]; intros fs name rnd' fs' H; cbn in H; [done|].
  unfold os_Mkdir in H.
  destruct (fs !! clean (filepath_Join dir (tempDirPrefix +:+ suffix))); [eauto|].
  inversion H; subst. unfold filepath_Join, tempDirPrefix.
  exists ("sdb_" +:+ suffix). by rewrite append_assoc.
Qed.

Lemma getTempDir_Ok w tmpdir w' :
  getTempDir opts w = ((tmpdir, None), w') →
  ∃ r, tmpdir = (clean (GetRootTempDir opts) +:+ "/") +:+ String "f" r.
Proof.
  unfold getTempDir.
  destruct (os_MkdirAll (files w) (GetRootTempDir opts)) as [err fs].
  destruct (bool_decide (err ≠ None) && negb (os_IsExist err)) eqn:E.
  - intros [= <- -> <-]. done.
  - destruct (ioutil_TempDir _ _ _ _) as [[dir e] [rnd fs']] eqn:Ht.
    intros [= <- -> <-].
    apply ioutil_TempDir_Ok in Ht as [r ->].
    destruct (HasSuffix _ _); cbn [negb].
    + eauto.
    + exists (r +:+ "/"). by rewrite append_assoc.
Qed.

Lemma temp_file tmpdir r f :
  tmpdir = (clean (GetRootTempDir opts) +:+ "/") +:+ String "f" r →
  clean f = f → f ≠ "" →
  clean (tmpdir +:+ f) = tmpdir +:+ f ∧ in_temp opts (tmpdir +:+ f) = true.
Proof.
  intros -> Hf Hne. split.
  - rewrite clean_append; rewrite Hf; done.
  - unfold in_temp, under. rewrite append_assoc. apply prefix_append.
Qed.

(** Removing the temp directory touches nothing outside the temp root. *)
Lemma temp_dir tmpdir r q :
  tmpdir = (clean (GetRootTempDir opts) +:+ "/") +:+ String "f" r →
  in_temp opts q = false →
  q ≠ clean tmpdir ∧ under (clean tmpdir) q = false.
Proof.
  intros -> Hq.
  assert (clean ((clean (GetRootTempDir opts) +:+ "/") +:+ String "f" r)
          = (clean (GetRootTempDir opts) +:+ "/") +:+ clean (String "f" r)) as ->.
  { apply clean_append, clean_cons_nonempty. done. }
  split.
  - intros ->. unfold in_temp, under in Hq. by rewrite prefix_append in Hq.
  - destruct (under _ q) eqn:E; [|done].
    unfold in_temp, under in *. rewrite <- Hq. symmetry.
    eapply prefix_trans; [|exact E]. rewrite append_assoc. apply prefix_append.
Qed.

Lemma entry_files key f :
  f ∈ [KeyFilename; DataFilename; GzipDataFilename] →
  entry_outside_temp opts key = true →
  clean (GetDirForKey opts key +:+ f) = GetDirForKey opts key +:+ f ∧
  in_temp opts (GetDirForKey opts key +:+ f) = false.
Proof.
  intros Hf Ho. split.
  - repeat (apply elem_of_cons in Hf as [->|Hf]; [by rewrite clean_append|]).
    by apply elem_of_nil in Hf.
  - unfold entry_outside_temp in Ho. rewrite forallb_forall in Ho.
    apply negb_true_iff, Ho. by apply list_elem_of_In.
Qed.

(** *** What a successful [Write] leaves in the entry directory *)

Lemma Write_entry ctx key data w u w' :
  Write fc opts ctx key data w = (Ok u, w') →
  entry_outside_temp opts key = true →
  let dir := GetDirForKey opts key in
  files w' !! (dir +:+ KeyFilename) = Some (File key) ∧
  if GetUseGzip opts then
    (∃ writer, gzip.NewWriterLevel (GetGzipLevel opts) = Ok writer ∧
       files w' !! (dir +:+ GzipDataFilename)
       = Some (File (gzip.Writer_Copy_Close fc writer data))) ∧
    files w' !! (dir +:+ DataFilename) = None
  else
    files w' !! (dir +:+ DataFilename) = Some (File data) ∧
    files w' !! (dir +:+ GzipDataFilename) = None.
Proof.
  intros H Hout dir. unfold Write in H. fold dir in H.
  apply bind_Ok in H as (? & w1 & _ & H).
  apply bind_Ok in H as (st & w2 & _ & H).
  apply bind_Ok in H as (? & w3 & _ & H).
  apply bind_Ok in H as ([tmpdir err] & w4 & Ht & H).
  apply bind_Ok in H as (? & w5 & [-> ->]%return_err_Ok & H).
  destruct (getTempDir opts w3) as [r w4'] eqn:Hg. inversion Ht; subst; clear Ht.
  apply getTempDir_Ok in Hg as [r Htmp].
  unfold defer in H.
  match type of H with
  | context [let '(_, _) := ?b w4 in _] => destruct (b w4) as [res w6] eqn:Hb
  end.
  inversion H; subst res w'; clear H.
  apply bind_Ok in Hb as (? & w7 & [_ ->]%checkpoint_Ok & Hb).
  apply bind_Ok in Hb as (? & w8 & Hk8%write_file_Ok & Hb).
  apply bind_Ok in Hb as (? & w9 & [_ ->]%checkpoint_Ok & Hb).
  apply bind_Ok in Hb as (? & w10 & (enc & Hd10 & Henc)%writeData_Ok & Hb).
  apply bind_Ok in Hb as (? & w11 & [_ ->]%checkpoint_Ok & Hb).
  apply bind_Ok in Hb as (err & w12 & Hmk & Hb).
  apply bind_Ok in Hb as (? & w13 & Hmk' & Hb).
  pose proof (MkdirAll_step _ _ _ _ _ _ Hmk Hmk') as Hfiles. clear Hmk Hmk'.
  apply bind_Ok in Hb as (? & w14 & (Hno1 & Hno2 & Hrm)%removeDataFiles_Ok & Hb).
  apply bind_Ok in Hb as (err1 & w15 & Hrn1 & Hb).
  apply bind_Ok in Hb as (? & w16 & [-> ->]%return_err_Ok & Hb).
  apply bind_Ok in Hb as (? & w17 & [_ ->]%checkpoint_Ok & Hb).
  apply bind_Ok in Hb as (err2 & w18 & Hrn2 & Hb).
  apply return_err_Ok in Hb as [-> ->].
  apply Rename_step in Hrn1 as (c1 & Hc1 & H15).
  apply Rename_step in Hrn2 as (c2 & Hc2 & H18).
  (* where everything is stored *)
  destruct (entry_files key KeyFilename) as [Ck Ik]; [set_solver|done|].
  destruct (entry_files key DataFilename) as [Cd Id]; [set_solver|done|].
  destruct (entry_files key GzipDataFilename) as [Cg Ig]; [set_solver|done|].
  destruct (temp_file tmpdir r KeyFilename Htmp) as [Ctk Itk]; [done..|].
  destruct (temp_file tmpdir r DataFilename Htmp) as [Ctd Itd]; [done..|].
  destruct (temp_file tmpdir r GzipDataFilename Htmp) as [Ctg Itg]; [done..|].
  fold dir in Ck, Cd, Cg, Ik, Id, Ig.
  assert (dir +:+ KeyFilename ≠ dir +:+ DataFilename) by (by intros ?%append_inj_l).
  assert (dir +:+ KeyFilename ≠ dir +:+ GzipDataFilename) by (by intros ?%append_inj_l).
  assert (dir +:+ DataFilename ≠ dir +:+ GzipDataFilename) by (by intros ?%append_inj_l).
  assert (tmpdir +:+ KeyFilename ≠ tmpdir +:+ DataFilename) by (by intros ?%append_inj_l).
  assert (tmpdir +:+ KeyFilename ≠ tmpdir +:+ GzipDataFilename) by (by intros ?%append_inj_l).
  assert (∀ a b, in_temp opts a = true → in_temp opts b = false → a ≠ b) as Hsep
    by (intros a b Ha Hb ->; congruence).
  assert (∀ q, in_temp opts q = false →
            (os_RemoveAll (files w18) tmpdir).2 !! q = files w18 !! q) as Hclean.
  { intros q Hq. rewrite os_RemoveAll_lookup.
    destruct (temp_dir tmpdir r q Htmp Hq) as [Hne ->].
    by rewrite bool_decide_eq_false_2. }
  cbn [files]. rewrite !Hclean by done. clear Hclean.
  rewrite Ck, Ctk in *. rewrite Cd, Cg in *.
  assert (files w10 !! (tmpdir +:+ KeyFilename) = Some (File key)) as Hk10.
  { rewrite Hd10, Hk8. destruct (GetUseGzip opts).
    - rewrite Ctg, lookup_insert_ne by congruence. apply lookup_insert_eq.
    - rewrite Ctd, lookup_insert_ne by congruence. apply lookup_insert_eq. }
  destruct (GetUseGzip opts).
  - destruct Henc as (writer & Hw & ->). rewrite Ctg in *. rewrite Cg in H15.
    assert (c1 = gzip.Writer_Copy_Close fc writer data) as ->.
    { rewrite Hrm in Hc1 by (apply Hsep; done).
      erewrite Hfiles in Hc1 by (rewrite Hd10; apply lookup_insert_eq). congruence. }
    assert (c2 = key) as ->.
    { rewrite H15, lookup_insert_ne, lookup_delete_ne, Hrm in Hc2
        by (first [congruence | apply Hsep; done | apply not_eq_sym, Hsep; done]).
      erewrite Hfiles in Hc2 by exact Hk10. congruence. }
    rewrite H18, H15. split; [apply lookup_insert_eq|]. split.
    + exists writer. split; [done|].
      rewrite lookup_insert_ne, lookup_delete_ne, lookup_insert_eq
        by (first [congruence | apply Hsep; done | apply not_eq_sym, Hsep; done]). done.
    + rewrite lookup_insert_ne, lookup_delete_ne, lookup_insert_ne, lookup_delete_ne
        by (first [congruence | apply Hsep; done | apply not_eq_sym, Hsep; done]). done.
  - subst enc. rewrite Ctd in *. rewrite Cd in H15.
    assert (c1 = data) as ->.
    { rewrite Hrm in Hc1 by (apply Hsep; done).
      erewrite Hfiles in Hc1 by (rewrite Hd10; apply lookup_insert_eq). congruence. }
    assert (c2 = key) as ->.
    { rewrite H15, lookup_insert_ne, lookup_delete_ne, Hrm in Hc2
        by (first [congruence | apply Hsep; done | apply not_eq_sym, Hsep; done]).
      erewrite Hfiles in Hc2 by exact Hk10. congruence. }
    rewrite H18, H15. split; [apply lookup_insert_eq|]. split.
    + rewrite lookup_insert_ne, lookup_delete_ne, lookup_insert_eq
        by (first [congruence | apply Hsep; done | apply not_eq_sym, Hsep; done]). done.
    + rewrite lookup_insert_ne, lookup_delete_ne, lookup_insert_ne, lookup_delete_ne
        by (first [congruence | apply Hsep; done | apply not_eq_sym, Hsep; done]). done.
Qed.

(** Reading an entry whose key file holds the key. *)
Lemma Read_matching_key (fs : FS) ctx key :
  ctx_Done ctx 0 = false →
  fs !! clean (GetDirForKey opts key +:+ KeyFilename) = Some (File key) →
  Read opts fs ctx key =
  let dir := GetDirForKey opts key in
  match fs !! clean (dir +:+ DataFilename) with
  | Some file => Ok (OsFile file)
  | None =>
      match fs !! clean (dir +:+ GzipDataFilename) with
      | Some file =>
          match ioutil_ReadAll_file file with
          | Err err => Err err
          | Ok content =>
              match gzip.NewReader content with
              | Err err => Err err
              | Ok reader => Ok (Wrapped reader file)
              end
          end
      | None => Err (NoSuchKeyError key)
      end
  end.
Proof.
  intros Hctx Hkey. unfold Read, checkKeyCollision, readKey, os_Lstat, os_Open.
  rewrite Hctx, Hkey. cbn [error_of os_IsNotExist ioutil_ReadAll_file].
  unfold Key_Equals. rewrite bool_decide_eq_true_2 by done.
  destruct (fs !! clean (GetDirForKey opts key +:+ DataFilename)); [done|].
  by destruct (fs !! clean (GetDirForKey opts key +:+ GzipDataFilename)).
Qed.

(** C1. Writing a value and reading the key back yields exactly the
    value, with compression enabled (the value is then stored as
    [data.gz]) as well as disabled (stored as [data]). *)
Theorem Write_then_Read ctx ctx' key data w u w' :
  lossless fc →
  entry_outside_temp opts key = true →
  ctx_Done ctx' 0 = false →
  Write fc opts ctx key data w = (Ok u, w') →
  ∃ reader,
    Read opts (files w') ctx' key = Ok reader ∧
    ioutil_ReadAll fc reader = Ok data ∧
    exists_at (files w')
      (GetDirForKey opts key +:+
         (if GetUseGzip opts then GzipDataFilename else DataFilename)) = true.
Proof.
  intros Hfc Hout Hctx HW.
  destruct (Write_entry _ _ _ _ _ _ HW Hout) as [Hkey Hdata].
  destruct (entry_files key KeyFilename) as [Ck _]; [set_solver|done|].
  destruct (entry_files key DataFilename) as [Cd _]; [set_solver|done|].
  destruct (entry_files key GzipDataFilename) as [Cg _]; [set_solver|done|].
  rewrite Read_matching_key by (by rewrite ?Ck). cbn zeta.
  unfold exists_at, os_Lstat. rewrite Cd, Cg.
  destruct (GetUseGzip opts).
  - destruct Hdata as [(writer & Hw & Hgz) Hno]. rewrite Hno, Cg, Hgz.
    cbn [ioutil_ReadAll_file].
    destruct (gzip_roundtrip fc _ writer data Hfc Hw) as (reader & -> & Hall).
    by exists (Wrapped reader (File (gzip.Writer_Copy_Close fc writer data))).
  - destruct Hdata as [Hraw _]. rewrite Cd, Hraw. by exists (OsFile (File data)).
Qed.

(** C7. After a successful [Write] the entry directory holds exactly one
    of [data] and [data.gz], the one of the configured mode; the loop
    that precedes the rename leaves neither behind. *)
Theorem Write_single_encoding ctx key data w u w' :
  entry_outside_temp opts key = true →
  Write fc opts ctx key data w = (Ok u, w') →
  let dir := GetDirForKey opts key in
  exists_at (files w') (dir +:+ DataFilename) = negb (GetUseGzip opts) ∧
  exists_at (files w') (dir +:+ GzipDataFilename) = GetUseGzip opts ∧
  ∀ w1 u1 w2,
    removeDataFiles dir [DataFilename; GzipDataFilename] w1 = (Ok u1, w2) →
    exists_at (files w2) (dir +:+ DataFilename) = false ∧
    exists_at (files w2) (dir +:+ GzipDataFilename) = false.
Proof.
  intros Hout HW dir.
  destruct (Write_entry _ _ _ _ _ _ HW Hout) as [_ Hdata]. fold dir in Hdata.
  destruct (entry_files key DataFilename) as [Cd _]; [set_solver|done|].
  destruct (entry_files key GzipDataFilename) as [Cg _]; [set_solver|done|].
  fold dir in Cd, Cg. unfold exists_at, os_Lstat. rewrite Cd, Cg.
  split; [|split].
  - destruct (GetUseGzip opts).
    + destruct Hdata as [_ ->]. done.
    + destruct Hdata as [-> _]. done.
  - destruct (GetUseGzip opts).
    + destruct Hdata as [(writer & _ & ->) _]. done.
    + destruct Hdata as [_ ->]. done.
  - intros w1 u1 w2 (H1 & H2 & _)%removeDataFiles_Ok.
    rewrite Cd in H1. rewrite Cg in H2. by rewrite H1, H2.
Qed.

(** C6. When the key file of the entry directory holds another key,
    [Read], [Write] and [Delete] each return a [KeyCollisionError]
    carrying the new and the old key, and the store is left as it
    was. *)
Theorem collision_detected ctx key old data w :
  ctx_Done ctx 0 = false →
  os_Open (files w) (GetDirForKey opts key +:+ KeyFilename) = Ok (File old) →
  old ≠ key →
  Read opts (files w) ctx key = Err (KeyCollisionError key old) ∧
  Write fc opts ctx key data w = (Err (KeyCollisionError key old), w) ∧
  Delete opts ctx key w = (Err (KeyCollisionError key old), w).
Proof.
  intros Hctx Hopen Hne.
  assert (files w !! clean (GetDirForKey opts key +:+ KeyFilename) = Some (File old)) as Hk.
  { unfold os_Open in Hopen. by destruct (files w !! _) as [n|]; inversion Hopen. }
  assert (checkKeyCollision (files w) key (GetDirForKey opts key +:+ KeyFilename)
          = Some (KeyCollisionError key old)) as Hcol.
  { unfold checkKeyCollision, readKey. rewrite Hopen. cbn [ioutil_ReadAll_file].
    unfold Key_Equals. by rewrite bool_decide_eq_false_2 by congruence. }
  split; [|split].
  - unfold Read. rewrite Hctx, Hcol. unfold os_Lstat. by rewrite Hk.
  - unfold Write, checkpoint. rewrite Hctx.
    unfold bind, ret, inspect, os_Lstat. cbv beta iota zeta.
    rewrite Hk. cbv beta iota. rewrite Hcol. done.
  - unfold Delete, checkpoint. rewrite Hctx.
    unfold bind, ret, inspect, os_Lstat. cbv beta iota zeta.
    rewrite Hk. cbn [error_of os_IsNotExist]. cbv beta iota. rewrite Hcol. done.
Qed.

(** C10. With a matching key file and both [data] and [data.gz] in the
    entry directory, [Read] returns the contents of [data]; [data.gz]
    is opened only when there is no [data]. *)
Theorem Read_prefers_data (fs : FS) ctx key :
  ctx_Done ctx 0 = false →
  os_Open fs (GetDirForKey opts key +:+ KeyFilename) = Ok (File key) →
  let dir := GetDirForKey opts key in
  (∀ raw, os_Open fs (dir +:+ DataFilename) = Ok (File raw) →
          Read opts fs ctx key = Ok (OsFile (File raw)) ∧
          ioutil_ReadAll fc (OsFile (File raw)) = Ok raw) ∧
  (∀ packed, exists_at fs (dir +:+ DataFilename) = false →
             os_Open fs (dir +:+ GzipDataFilename) = Ok (File packed) →
             Read opts fs ctx key =
             match gzip.NewReader packed with
             | Ok reader => Ok (Wrapped reader (File packed))
             | Err err => Err err
             end).
Proof.
  intros Hctx Hopen dir.
  assert (fs !! clean (dir +:+ KeyFilename) = Some (File key)) as Hk.
  { unfold os_Open in Hopen. by destruct (fs !! _) as [n|]; inversion Hopen. }
  rewrite Read_matching_key by done. cbn zeta. fold dir.
  unfold exists_at, os_Lstat, os_Open. split.
  - intros raw Hraw. destruct (fs !! clean (dir +:+ DataFilename)); by inversion Hraw.
  - intros packed Hno Hgz.
    destruct (fs !! clean (dir +:+ DataFilename)); [done|].
    destruct (fs !! clean (dir +:+ GzipDataFilename)); by inversion Hgz.
Qed.

End LocalProperties.

(** ** ScanKeys *)

Section ScanProperties.

Import local.

Lemma scanFn_nil_errFunc_panics ctx keyFunc path isDir e s :
  ctx_Done ctx (s_polls s) = false →
  (scanFn ctx keyFunc None path isDir (Some e) s).1 = Panics.
Proof. intros H. unfold scanFn. by rewrite H. Qed.

Lemma scanFn_nil_errFunc ctx keyFunc path isDir err s :
  no_node_error (scanFn ctx keyFunc None path isDir err s).1.
Proof.
  unfold scanFn, no_node_error.
  destruct (ctx_Done ctx (s_polls s)); [cbn; auto|].
  destruct err; [cbn; auto|].
  destruct isDir; [cbn; auto|].
  destruct (String.eqb _ _); [|cbn; auto].
  destruct (readKey _ _); [|cbn; auto].
  destruct (negb _); cbn; auto.
Qed.

(** Induction on what a walk observes, with the property available for
    every entry of a listed directory. *)
Lemma WalkTree_forall_ind (P : WalkTree → Prop) :
  (∀ name err, P (WLstatErr name err)) →
  (∀ name, P (WFile name)) →
  (∀ name children, Forall P children → P (WDir name children)) →
  (∀ name err, P (WDirErr name err)) →
  ∀ t, P t.
Proof.
  intros H1 H2 H3 H4.
  refine (fix go (t : WalkTree) : P t :=
            match t with
            | WLstatErr name err => H1 name err
            | WFile name => H2 name
            | WDir name children =>
                H3 name children
                  ((fix all (cs : list WalkTree) : Forall P cs :=
                      match cs with
                      | [] => ltac:(constructor)
                      | c :: cs' => ltac:(constructor; [exact (go c)|exact (all cs')])
                      end) children)
            | WDirErr name err => H4 name err
            end).
Qed.

Lemma walk_names_no_node_error walk (walkFn : WalkFunc) path names :
  (∀ path isDir err s, no_node_error (walkFn path isDir err s).1) →
  Forall (λ c, ∀ path s, no_node_error (walk path c s).1) names →
  ∀ s, no_node_error (walk_names walk walkFn path names s).1.
Proof.
  intros Hfn Hall. induction Hall as [|c cs Hc _ IH]; intros s; cbn [walk_names].
  - unfold no_node_error. auto.
  - assert (∀ r : outcome (option error) * Scan,
              no_node_error r.1 →
              r.1 = Returns None ∨ (r.1 ≠ Returns None ∧
                                    r.1 ≠ Returns (Some filepath_SkipDir))) as Hcase.
    { intros [r s'] [E|[E|[E|E]]]; cbn in *; subst; auto. }
    destruct c as [n e|n|n cs'|n e]; cbn [node_name IsDir].
    + pose proof (Hfn (filepath_Join path n) false (Some e) s) as Hr.
      destruct (walkFn (filepath_Join path n) false (Some e) s) as [r s'].
      destruct (Hcase _ Hr) as [E|[E1 E2]]; cbn [fst] in *; subst; [apply IH|].
      destruct r as [[e'|]|]; try done. destruct e'; done.
    + pose proof (Hc (filepath_Join path n) s) as Hr.
      destruct (walk (filepath_Join path n) (WFile n) s) as [r s'].
      destruct (Hcase _ Hr) as [E|[E1 E2]]; cbn [fst] in *; subst; [apply IH|].
      destruct r as [[e'|]|]; try done. destruct e'; done.
    + pose proof (Hc (filepath_Join path n) s) as Hr.
      destruct (walk (filepath_Join path n) (WDir n cs') s) as [r s'].
      destruct (Hcase _ Hr) as [E|[E1 E2]]; cbn [fst] in *; subst; [apply IH|].
      destruct r as [[e'|]|]; try done. destruct e'; done.
    + pose proof (Hc (filepath_Join path n) s) as Hr.
      destruct (walk (filepath_Join path n) (WDirErr n e) s) as [r s'].
      destruct (Hcase _ Hr) as [E|[E1 E2]]; cbn [fst] in *; subst; [apply IH|].
      destruct r as [[e'|]|]; try done. destruct e'; done.
Qed.

Lemma filepath_walk_no_node_error (walkFn : WalkFunc) :
  (∀ path isDir err s, no_node_error (walkFn path isDir err s).1) →
  ∀ t path s, no_node_error (filepath_walk walkFn path t s).1.
Proof.
  intros Hfn t. induction t as [name e|name|name children IH|name e]
    using WalkTree_forall_ind; intros path s; cbn [filepath_walk]; try apply Hfn.
  pose proof (Hfn path true None s) as H0.
  destruct (walkFn path true None s) as [r0 s0]. cbn [fst] in H0.
  destruct H0 as [-> | [-> | [-> | ->]]]; cbn [fst]; unfold no_node_error; auto.
  by apply walk_names_no_node_error.
Qed.

(** With a nil [errFunc], [ScanKeys] never returns an error reported by
    a node of the walk: it returns nil or the cancellation of the
    context, or it panics. *)
Lemma ScanKeys_nil_errFunc_no_node_error opts ctx keyFunc observed (fs : FS) :
  let r := (ScanKeys opts ctx keyFunc None observed fs).1 in
  r = Panics ∨ r = Returns None ∨ r = Returns (Some context_Canceled).
Proof.
  cbv zeta. unfold ScanKeys. destruct (ctx_Done ctx 0); [cbn; auto|].
  unfold filepath_Walk.
  pose proof (filepath_walk_no_node_error _ (scanFn_nil_errFunc ctx keyFunc)
                observed (GetRootDataDir opts)
                {| s_files := fs; s_polls := 1; s_keys := [] |}) as H.
  destruct (filepath_walk _ _ _ _) as [r s].
  destruct H as [E|[E|[E|E]]]; cbn [fst] in E; subst; cbn; auto.
Qed.

End ScanProperties.

(** ** The remote tier *)

Section RemoteProperties.

Import remote.

Context (fc : FlateCodec) (opts : Options) (IsNotExist : option error → bool).
Context {S : Type} (h : Handler S).

Lemma run_bind {A B} (m : Prog A) (f : A → Prog B) (s : S) :
  run h (bind m f) s =
  let '(a, s1, tr1) := run h m s in
  let '(b, s2, tr2) := run h (f a) s1 in
  (b, s2, tr1 ++ tr2).
Proof.
  revert s. induction m as [a|R act k IH]; intros s; cbn [bind run].
  - by destruct (run h (f a) s) as [[b s2] tr2].
  - destruct (h R act s) as [r s1]. rewrite IH.
    destruct (run h (k r) s1) as [[a s2] tr1].
    by destruct (run h (f a) s2) as [[b s3] tr2].
Qed.

Lemma run_call {R} (act : Action R) (s : S) :
  run h (call act) s = let '(r, s1) := h R act s in (r, s1, [Called act r]).
Proof. unfold call. cbn [run]. by destruct (h R act s). Qed.

(** [readAndGzip] makes one call, [Local.Read]; what it returns is the
    bytes read followed by a gzip header and a sync marker, with the
    CRC-32C of all that. *)
Lemma run_readAndGzip key (s : S) :
  run h (readAndGzip fc key) s =
  let '(r, s1) := h _ (LocalRead key) s in
  (match r with
   | Err err => (0%N, [], Some err)
   | Ok reader =>
       match local.ioutil_ReadAll fc reader with
       | Err err => (0%N, [], Some err)
       | Ok copied =>
           let content :=
             copied ++ gzip.header gzip.BestCompression ++ flate_sync_marker in
           (crc32_Checksum content crc32cTable, content, None)
       end
   end, s1, [Called (LocalRead key) r]).
Proof.
  unfold readAndGzip. rewrite run_bind, run_call.
  destruct (h _ (LocalRead key) s) as [[reader|err] s1]; [|done].
  cbn [gzip.NewWriterLevel]. change (gzip.NewWriterLevel gzip.BestCompression)
    with (Ok {| gzip.w_level := gzip.BestCompression; gzip.wroteHeader := false |}).
  cbv beta iota. destruct (local.ioutil_ReadAll fc reader); done.
Qed.

Lemma readAndGzip_trace key (s : S) x s1 tr :
  run h (readAndGzip fc key) s = (x, s1, tr) → deletes_local key tr = false.
Proof.
  rewrite run_readAndGzip. destruct (h _ (LocalRead key) s). by intros [= <- <- <-].
Qed.

Lemma deletes_local_app key tr1 tr2 :
  deletes_local key (tr1 ++ tr2) = deletes_local key tr1 || deletes_local key tr2.
Proof. apply existsb_app. Qed.

(** On a local miss, a downloaded object and a second local miss,
    [Read] writes to the local store what the header parse left of the
    downloaded bytes; the gzip reader is never read from. *)
Lemma Read_writes_unread_buffer key (s : S) e1 s1 object s2 e2 s3 reader :
  h _ (LocalRead key) s = (Err e1, s1) →
  IsNoSuchKeyError (Some e1) = true →
  h _ (BucketRead (GetRemoteName opts key)) s1
  = (Ok {| s_data := object; s_err := None |}, s2) →
  IsNotExist None = false →
  h _ (LocalRead key) s2 = (Err e2, s3) →
  gzip.NewReader object = Ok reader →
  ∃ res s' tr,
    run h (Read opts IsNotExist key) s = (res, s', tr) ∧
    tr !! 3 = Some (Called (LocalWrite key (gzip.unread reader))
                      (h _ (LocalWrite key (gzip.unread reader)) s3).1).
Proof.
  intros H1 Hno H2 Hne H3 Hz. unfold Read.
  rewrite run_bind, run_call, H1. cbv beta iota. rewrite Hno. cbn [negb].
  rewrite run_bind, run_call, H2. cbv beta iota.
  cbn [local.error_of]. rewrite Hne. cbn [negb io_Copy s_err s_data].
  rewrite run_bind, run_call, H3. cbv beta iota. rewrite Hz.
  rewrite run_bind, run_call.
  destruct (h _ (LocalWrite key (gzip.unread reader)) s3) as [err s4].
  destruct err as [e|].
  - cbn [run]. eexists _, _, _. split; [done|]. done.
  - rewrite run_call. destruct (h _ (LocalRead key) s4) as [r s5].
    eexists _, _, _. split; [done|]. done.
Qed.

(** C4. [uploadKey] calls [Local.Delete] exactly when the checksum
    recomputed after the bucket write equals the one computed before
    it; when they differ it returns without touching the local store. *)
Theorem uploadKey_deletes_iff_crc_unchanged key s oldCrc content s1 tr1 s2
    newCrc content' s3 tr3 :
  run h (readAndGzip fc key) s = ((oldCrc, content, None), s1, tr1) →
  h _ (BucketWrite (GetRemoteName opts key) content) s1 = (None, s2) →
  run h (readAndGzip fc key) s2 = ((newCrc, content', None), s3, tr3) →
  ∃ res s' tr,
    run h (uploadKey fc opts key) s = (res, s', tr) ∧
    (deletes_local key tr = true ↔ newCrc = oldCrc) ∧
    (newCrc = oldCrc → (res, s') = h _ (LocalDelete key) s3) ∧
    (newCrc ≠ oldCrc → res = None ∧ s' = s3).
Proof.
  intros H1 H2 H3. unfold uploadKey.
  rewrite run_bind, H1. cbv beta iota.
  rewrite run_bind, run_call, H2. cbv beta iota.
  rewrite run_bind, H3. cbv beta iota.
  pose proof (readAndGzip_trace _ _ _ _ _ H1) as Ht1.
  pose proof (readAndGzip_trace _ _ _ _ _ H3) as Ht3.
  destruct (N.eqb_spec newCrc oldCrc) as [E|E].
  - rewrite run_call. destruct (h _ (LocalDelete key) s3) as [r s4].
    eexists _, _, _. split; [done|]. split; [|split; [done|done]].
    split; [done|]. intros _.
    rewrite !deletes_local_app, Ht1, Ht3. cbn.
    unfold Key_Equals. by rewrite bool_decide_eq_true_2.
  - cbn [run]. eexists _, _, _. split; [done|]. split; [|split; [done|done]].
    rewrite !deletes_local_app, Ht1, Ht3. cbn. split; [done|]. by intros ?.
Qed.

(** C5. The remote [Delete] returns [NoSuchKeyError] exactly when the
    local delete reports no such key and the bucket delete reports not
    exist; otherwise it returns the compiled batch of the failures that
    are not of that kind, which is nil when both deletes succeeded. *)
Theorem Delete_result key (s : S) :
  let '(errL, s1) := h _ (LocalDelete key) s in
  let '(errB, s2) := h _ (BucketDelete (GetRemoteName opts key)) s1 in
  let failures :=
    (if IsNoSuchKeyError errL then [] else option_list errL)
      ++ (if IsNotExist errB then [] else option_list errB) in
  ∃ res tr,
    run h (Delete opts IsNotExist key) s = (res, s2, tr) ∧
    (res = Some (NoSuchKeyError key)
     ↔ IsNoSuchKeyError errL = true ∧ IsNotExist errB = true) ∧
    (¬ (IsNoSuchKeyError errL = true ∧ IsNotExist errB = true) →
     res = errbatch.Compile failures) ∧
    (errL = None ∧ errB = None → res = None).
Proof.
  destruct (h _ (LocalDelete key) s) as [errL s1] eqn:HL.
  destruct (h _ (BucketDelete (GetRemoteName opts key)) s1) as [errB s2] eqn:HB.
  cbv zeta. unfold Delete. rewrite run_bind, run_call, HL. cbv beta iota zeta.
  destruct (IsNoSuchKeyError errL) eqn:EL; cbn [negb];
    rewrite run_bind, run_call, HB; cbv beta iota zeta;
    destruct (IsNotExist errB) eqn:EB; cbn [negb run];
    eexists _, _; (split; [done|]).
  - split; [done|]. split; [tauto|].
    intros [-> _]. done.
  - split; [|split].
    + split; [|intros [_ ?]; done]. destruct errB; cbn; done.
    + intros _. by destruct errB.
    + intros [_ ->]. done.
  - split; [|split].
    + split; [|intros [? _]; done]. destruct errL; cbn; done.
    + intros _. destruct errL; cbn; by rewrite ?app_nil_r.
    + intros [-> _]. done.
  - split; [|split].
    + split; [|intros [? _]; done]. destruct errL, errB; cbn; done.
    + intros _. by destruct errL, errB.
    + intros [-> ->]. done.
Qed.

(** C8, as the code has it. When the final [Local.Delete] of
    [uploadKey] reports that the key is gone, [uploadKey] returns that
    error and the worker counts the key as failed, not as uploaded. *)
Theorem worker_counts_vanished_key_as_failed key c s crc content s1 tr1 s2
    content' s3 tr3 s4 :
  SkipKey opts key = false →
  run h (readAndGzip fc key) s = ((crc, content, None), s1, tr1) →
  h _ (BucketWrite (GetRemoteName opts key) content) s1 = (None, s2) →
  run h (readAndGzip fc key) s2 = ((crc, content', None), s3, tr3) →
  h _ (LocalDelete key) s3 = (Some (NoSuchKeyError key), s4) →
  (run h (uploadKey fc opts key) s).1.1 = Some (NoSuchKeyError key) ∧
  (run h (worker_key fc opts key c) s).1.1 =
  {| scanned := atomic_AddInt64 (scanned c) 1;
     skipped := skipped c;
     uploaded := uploaded c;
     failed := atomic_AddInt64 (failed c) 1 |}.
Proof.
  intros Hskip H1 H2 H3 H4.
  assert (run h (uploadKey fc opts key) s
          = (Some (NoSuchKeyError key), s4,
             tr1 ++ [Called (BucketWrite (GetRemoteName opts key) content) None]
                 ++ tr3 ++ [Called (LocalDelete key) (Some (NoSuchKeyError key))])) as Hup.
  { unfold uploadKey.
    rewrite run_bind, H1. cbv beta iota.
    rewrite run_bind, run_call, H2. cbv beta iota.
    rewrite run_bind, H3. cbv beta iota.
    rewrite N.eqb_refl, run_call, H4. done. }
  split; [by rewrite Hup|].
  unfold worker_key. rewrite Hskip, run_bind, Hup. done.
Qed.

End RemoteProperties.


(** ** The concrete database *)

Section Examples.

Import example.

Lemma Write_then_Read_witness :
  lossless stored_codec ∧
  (∃ reader,
     local.Read (lopts false) (local.files (written false)) Background foo = Ok reader ∧
     local.ioutil_ReadAll stored_codec reader = Ok bar ∧
     local.exists_at (local.files (written false)) "/db/data/foo/data" = true) ∧
  (∃ reader,
     local.Read (lopts true) (local.files (written true)) Background foo = Ok reader ∧
     local.ioutil_ReadAll stored_codec reader = Ok bar ∧
     local.exists_at (local.files (written true)) "/db/data/foo/data.gz" = true).
Proof.
  split; [apply stored_lossless|]. split.
  - apply (Write_then_Read stored_codec (lopts false) Background Background
             foo bar fresh tt (written false));
      [apply stored_lossless | vm_compute; reflexivity..].
  - apply (Write_then_Read stored_codec (lopts true) Background Background
             foo bar fresh tt (written true));
      [apply stored_lossless | vm_compute; reflexivity..].
Defined.

Lemma Write_single_encoding_witness :
  (local.exists_at (local.files (written false)) "/db/data/foo/data" = true ∧
   local.exists_at (local.files (written false)) "/db/data/foo/data.gz" = false) ∧
  (local.exists_at (local.files rewritten) "/db/data/foo/data" = false ∧
   local.exists_at (local.files rewritten) "/db/data/foo/data.gz" = true).
Proof.
  split.
  - destruct (Write_single_encoding stored_codec (lopts false) Background
                foo bar fresh tt (written false)) as (H1 & H2 & _);
      [vm_compute; reflexivity..|]. by split.
  - destruct (Write_single_encoding stored_codec (lopts true) Background
                foo baz (written false) tt rewritten) as (H1 & H2 & _);
      [vm_compute; reflexivity..|]. by split.
Defined.

Lemma collision_detected_witness :
  local.GetDirForKey crowded bar = local.GetDirForKey crowded foo ∧
  local.Read crowded (local.files crowded_written) Background bar
  = Err (KeyCollisionError bar foo) ∧
  local.Write stored_codec crowded Background bar baz crowded_written
  = (Err (KeyCollisionError bar foo), crowded_written) ∧
  local.Delete crowded Background bar crowded_written
  = (Err (KeyCollisionError bar foo), crowded_written).
Proof.
  split; [reflexivity|].
  apply (collision_detected stored_codec crowded Background bar foo baz crowded_written);
    [reflexivity | vm_compute; reflexivity | by vm_compute].
Defined.

Lemma Read_prefers_data_witness :
  let fs : FS :=
    <["/db/data/foo/key" := File foo]>
      (<["/db/data/foo/data" := File bar]>
         (<["/db/data/foo/data.gz" := File bar_gz]> ∅)) in
  local.Read (lopts true) fs Background foo = Ok (local.OsFile (File bar)) ∧
  local.ioutil_ReadAll stored_codec (local.OsFile (File bar)) = Ok bar.
Proof.
  intros fs.
  destruct (Read_prefers_data stored_codec (lopts true) fs Background foo) as [H _];
    [reflexivity | vm_compute; reflexivity |].
  apply (H bar). vm_compute; reflexivity.
Defined.

Lemma uploadKey_deletes_iff_crc_unchanged_witness :
  (* a foreground [Write(foo, baz)] lands during the bucket write *)
  (let s := (local_only false,
             [remote.Idle; remote.Idle; remote.ForegroundWrite foo baz]) in
   ∃ res s' tr,
     remote.run busy (remote.uploadKey stored_codec ropts foo) s = (res, s', tr) ∧
     remote.deletes_local foo tr = false ∧
     res = None ∧
     local.Read (lopts false) (local.files (remote.local_world s'.1)) Background foo
     = Ok (local.OsFile (File baz))) ∧
  (* nothing else runs *)
  (let s := (local_only false, []) in
   ∃ res s' tr,
     remote.run busy (remote.uploadKey stored_codec ropts foo) s = (res, s', tr) ∧
     remote.deletes_local foo tr = true ∧
     res = None ∧
     local.Read (lopts false) (local.files (remote.local_world s'.1)) Background foo
     = Err (NoSuchKeyError foo)).
Proof.
  split; intros s.
  - pose (r1 := remote.run busy (remote.readAndGzip stored_codec foo) s).
    pose (r2 := busy _ (remote.BucketWrite "foo" r1.1.1.1.2) r1.1.2).
    pose (r3 := remote.run busy (remote.readAndGzip stored_codec foo) r2.2).
    destruct (uploadKey_deletes_iff_crc_unchanged stored_codec ropts busy foo s
                r1.1.1.1.1 r1.1.1.1.2 r1.1.2 r1.2 r2.2
                r3.1.1.1.1 r3.1.1.1.2 r3.1.2 r3.2)
      as (res & s' & tr & Hrun & Hiff & _ & Hne); [vm_compute; reflexivity..|].
    exists res, s', tr. split; [done|].
    assert (r3.1.1.1.1 ≠ r1.1.1.1.1) as Hcrc by (by vm_compute).
    destruct (Hne Hcrc) as [-> ->]. split; [|split; [done|by vm_compute]].
    destruct (remote.deletes_local foo tr); [|done].
    exfalso. apply Hcrc. by apply Hiff.
  - pose (r1 := remote.run busy (remote.readAndGzip stored_codec foo) s).
    pose (r2 := busy _ (remote.BucketWrite "foo" r1.1.1.1.2) r1.1.2).
    pose (r3 := remote.run busy (remote.readAndGzip stored_codec foo) r2.2).
    destruct (uploadKey_deletes_iff_crc_unchanged stored_codec ropts busy foo s
                r1.1.1.1.1 r1.1.1.1.2 r1.1.2 r1.2 r2.2
                r3.1.1.1.1 r3.1.1.1.2 r3.1.2 r3.2)
      as (res & s' & tr & Hrun & Hiff & Heq & _); [vm_compute; reflexivity..|].
    exists res, s', tr. split; [done|].
    assert (r3.1.1.1.1 = r1.1.1.1.1) as Hcrc by (by vm_compute).
    split; [by apply Hiff|].
    specialize (Heq Hcrc). vm_compute in Heq. inversion Heq; subst.
    split; [done|]. by vm_compute.
Defined.

(** C2, as the code has it. On the database holding [foo ↦ bar],
    [readAndGzip] returns the value bytes themselves followed by a gzip
    header and a sync marker, with the CRC-32C of those bytes; this is
    what [uploadKey] hands to [Bucket.Write]. It is not the output of a
    gzip writer given the value, and a gzip reader rejects it. *)
Theorem readAndGzip_ships_unzipped_bytes :
  let content := bar ++ gzip.header gzip.BestCompression ++ flate_sync_marker in
  (remote.run (db false) (remote.readAndGzip stored_codec foo) (local_only false)).1.1
  = (crc32_Checksum content remote.crc32cTable, content, None) ∧
  (remote.run (db true) (remote.readAndGzip stored_codec foo) (local_only true)).1.1
  = (crc32_Checksum content remote.crc32cTable, content, None) ∧
  (remote.run (db false) (remote.uploadKey stored_codec ropts foo) (local_only false)).2 !! 1
  = Some (remote.Called (remote.BucketWrite "foo" content) None) ∧
  gzip.NewReader content = Err gzip_ErrHeader ∧
  ∀ fc level writer,
    gzip.NewWriterLevel level = Ok writer →
    content ≠ gzip.Writer_Copy_Close fc writer bar.
Proof.
  cbv zeta. repeat split; try (vm_compute; reflexivity).
  intros fc level writer Hw. unfold gzip.NewWriterLevel in Hw.
  destruct (_ || _)%bool; [done|]. inversion Hw; subst; clear Hw.
  unfold gzip.Writer_Copy_Close. cbn [gzip.wroteHeader gzip.w_level].
  unfold gzip.header. by intros [=].
Qed.

(** C3, as the code has it. On the database whose bucket holds a gzip
    file of [bar] under [foo] and whose local store is empty, the remote
    [Read] writes to the local store the bytes of the object that follow
    the gzip header, undecoded, and returns them. *)
Theorem Read_caches_undecoded_bytes :
  let '(res, _, tr) :=
    remote.run (db false) (remote.Read ropts remote.mock_IsNotExist foo) remote_only in
  match gzip.NewReader bar_gz with
  | Ok reader => gzip.ReadAll stored_codec reader
  | Err err => Err err
  end = Ok bar ∧
  tr !! 0 = Some (remote.Called (remote.LocalRead foo) (Err (NoSuchKeyError foo))) ∧
  tr !! 2 = Some (remote.Called (remote.LocalRead foo) (Err (NoSuchKeyError foo))) ∧
  tr !! 3 = Some (remote.Called (remote.LocalWrite foo (drop 10 bar_gz)) None) ∧
  res = Ok (local.OsFile (File (drop 10 bar_gz))) ∧
  drop 10 bar_gz ≠ bar.
Proof. vm_compute. repeat split; done. Qed.

(** C9, as the code has it. With a nil [errFunc], [ScanKeys] panics at
    the first node that reports an error: when the data root cannot be
    examined, and when a key file listed by the walk is gone by the time
    it is read. *)
Theorem ScanKeys_nil_errFunc_panics :
  (local.ScanKeys (lopts false) Background (λ _, true) None
     (local.WLstatErr "" (PathError "lstat" "/db/data/" ENOENT)) ∅).1
  = local.Panics ∧
  (local.ScanKeys (lopts false) Background (λ _, true) None
     (local.WDir "" [local.WDir "foo" [local.WFile "data"; local.WFile "key"]])
     (delete "/db/data/foo/key" (local.files (written false)))).1
  = local.Panics.
Proof. split; vm_compute; reflexivity. Qed.

(** C8, as stated, fails. A foreground [Delete] runs right before the
    final [Local.Delete] of [uploadKey]; that call reports
    [NoSuchKeyError], and the worker's counters show the key as failed,
    not as uploaded. *)
Lemma vanished_key_is_not_counted_as_uploaded :
  let '(c, _, tr) :=
    remote.run busy (remote.worker_key stored_codec ropts foo zero)
      (local_only false,
       [remote.Idle; remote.Idle; remote.Idle; remote.ForegroundDelete foo]) in
  last tr = Some (remote.Called (remote.LocalDelete foo) (Some (NoSuchKeyError foo))) ∧
  remote.uploaded c = 0%Z ∧
  remote.failed c = 1%Z.
Proof. vm_compute. done. Qed.

Lemma worker_counts_vanished_key_as_failed_witness :
  let s := (local_only false,
            [remote.Idle; remote.Idle; remote.Idle; remote.ForegroundDelete foo]) in
  remote.SkipKey ropts foo = false ∧
  (remote.run busy (remote.uploadKey stored_codec ropts foo) s).1.1
  = Some (NoSuchKeyError foo) ∧
  (remote.run busy (remote.worker_key stored_codec ropts foo zero) s).1.1
  = {| remote.scanned := 1; remote.skipped := 0; remote.uploaded := 0; remote.failed := 1 |}.
Proof.
  intros s. split; [reflexivity|].
  pose (r1 := remote.run busy (remote.readAndGzip stored_codec foo) s).
  pose (r2 := busy _ (remote.BucketWrite "foo" r1.1.1.1.2) r1.1.2).
  pose (r3 := remote.run busy (remote.readAndGzip stored_codec foo) r2.2).
  pose (r4 := busy _ (remote.LocalDelete foo) r3.1.2).
  apply (worker_counts_vanished_key_as_failed stored_codec ropts busy foo zero s
           r1.1.1.1.1 r1.1.1.1.2 r1.1.2 r1.2 r2.2 r3.1.1.1.2 r3.1.2 r3.2 r4.2);
    vm_compute; reflexivity.
Defined.

End Examples.

(** * Further properties *)

(** ** Errors of the gzip header reader *)

Lemma readString_error room input e :
  gzip.readString room input = Err e → header_error e.
Proof.
  unfold header_error. revert input. induction room as [|room IH]; intros input; cbn.
  - intros [= <-]. auto.
  - destruct input as [|b rest]; [intros [= <-]; auto|].
    destruct (decide (b = x00)); [done|].
    destruct (gzip.readString room rest) as [[s r]|e'] eqn:E; [done|].
    intros [= <-]. eauto.
Qed.

Lemma readHeader_error input e :
  gzip.readHeader input = Err e → header_error e.
Proof.
  unfold gzip.readHeader.
  destruct input as [|b0 input]; [intros [= <-]; red; auto|].
  destruct (read_full 10 (b0 :: input)) as [[buf rest]|]; [|intros [= <-]; red; auto].
  destruct buf as [|id1 [|id2 [|cm [|flg buf]]]]; try (intros [= <-]; red; auto; fail).
  destruct (negb _); [intros [= <-]; red; auto|].
  cbv zeta.
  set (extra := if gzip.has_flag flg gzip.flagExtra then _ else _).
  assert (Hextra : ∀ e, extra = Err e → header_error e).
  { subst extra. intros e'. destruct (gzip.has_flag flg gzip.flagExtra); [|done].
    destruct rest as [|l0 [|l1 rest1]]; try (intros [= <-]; red; auto; fail).
    destruct (read_full _ rest1) as [[]|]; [done|]. intros [= <-]; red; auto. }
  clearbody extra.
  assert (Hstr : ∀ flag r, (∀ e, r = Err e → header_error e) →
    ∀ e, match r with
         | Err e => Err e
         | Ok (seen, rest) =>
             if gzip.has_flag flg flag then
               match gzip.readString 512 rest with
               | Ok (s, rest') => Ok (seen ++ s, rest')
               | Err e => Err e
               end
             else Ok (seen, rest)
         end = Err e → header_error e).
  { intros flag r Hr e'. destruct r as [[seen rest']|e0]; [|intros [= <-]; eauto].
    destruct (gzip.has_flag flg flag); [|done].
    destruct (gzip.readString 512 rest') as [[s r']|e0] eqn:E; [done|].
    intros [= <-]. eauto using readString_error. }
  match goal with |- match ?r with _ => _ end = _ → _ =>
    assert (Hr : ∀ e, r = Err e → header_error e) by (apply Hstr, Hstr, Hextra);
    destruct r as [[seen rest']|e0] end; [|intros [= <-]; eauto].
  destruct (gzip.has_flag flg gzip.flagHdrCrc); [|done].
  destruct rest' as [|d0 [|d1 rest'']]; try (intros [= <-]; red; auto; fail).
  destruct (_ =? _)%N; [done|]. intros [= <-]; red; auto.
Qed.

Lemma NewReader_error input e :
  gzip.NewReader input = Err e → header_error e.
Proof.
  unfold gzip.NewReader. destruct (gzip.readHeader input) eqn:E; [done|].
  intros [= <-]. eauto using readHeader_error.
Qed.

(** ** Reading and deleting entries *)

Section EntryProperties.

Import local.

Context (fc : FlateCodec) (opts : Options).

(** X1. [Read] reports that there is no such key exactly when the key file
    is absent, or holds the key with neither data file beside it. *)
Theorem Read_NoSuchKey_iff (fs : FS) ctx key other :
  ctx_Done ctx 0 = false →
  let dir := GetDirForKey opts key in
  Read opts fs ctx key = Err (NoSuchKeyError other) ↔
  other = key ∧
  (exists_at fs (dir +:+ KeyFilename) = false ∨
   (readKey fs (dir +:+ KeyFilename) = Ok key ∧
    exists_at fs (dir +:+ DataFilename) = false ∧
    exists_at fs (dir +:+ GzipDataFilename) = false)).
Proof.
  intros Hctx dir. unfold Read, checkKeyCollision, readKey, exists_at, os_Lstat, os_Open.
  rewrite Hctx. fold dir.
  destruct (fs !! clean (dir +:+ KeyFilename)) as [[old|]|] eqn:Hk;
    cbn [error_of os_IsNotExist ioutil_ReadAll_file]; cbv beta iota.
  - unfold Key_Equals. case_bool_decide as Heq; cbv beta iota.
    + subst old.
      destruct (fs !! clean (dir +:+ DataFilename)) as [d|]; cbv beta iota.
      { split; [done|]. intros [_ [?|(_ & ? & _)]]; congruence. }
      destruct (fs !! clean (dir +:+ GzipDataFilename)) as [g|]; cbv beta iota.
      * split; [|intros [_ [?|(_ & _ & ?)]]; congruence].
        destruct g as [c|]; cbn; [|done].
        destruct (gzip.NewReader c) eqn:E; [done|]. intros [= ->].
        apply NewReader_error in E. by destruct E as [|[|]].
      * split; [intros [= ->]; auto|]. by intros [-> _].
    + split; [done|]. intros [_ [?|(? & _)]]; congruence.
  - split; [done|]. intros [_ [?|(? & _)]]; congruence.
  - split; [intros [= ->]; auto|]. by intros [-> _].
Qed.

(** X2. [Read] reports a collision exactly when the key file holds another
    key, and then names both. *)
Theorem Read_KeyCollision_iff (fs : FS) ctx key new old :
  ctx_Done ctx 0 = false →
  Read opts fs ctx key = Err (KeyCollisionError new old) ↔
  new = key ∧ old ≠ key ∧
  readKey fs (GetDirForKey opts key +:+ KeyFilename) = Ok old.
Proof.
  intros Hctx. unfold Read, checkKeyCollision, readKey, os_Lstat, os_Open.
  rewrite Hctx. set (dir := GetDirForKey opts key).
  destruct (fs !! clean (dir +:+ KeyFilename)) as [[k|]|] eqn:Hk;
    cbn [error_of os_IsNotExist ioutil_ReadAll_file]; cbv beta iota.
  - unfold Key_Equals. case_bool_decide as Heq; cbv beta iota.
    + subst k. split; [|intros (_ & ? & ?); congruence].
      destruct (fs !! clean (dir +:+ DataFilename)) as [d|]; cbv beta iota; [done|].
      destruct (fs !! clean (dir +:+ GzipDataFilename)) as [g|]; cbv beta iota; [|done].
      destruct g as [c|]; cbn; [|done].
      destruct (gzip.NewReader c) eqn:E; [done|]. intros [= ->].
      apply NewReader_error in E. by destruct E as [|[|]].
    + split; [intros [= -> ->]; split; [done|]; split; [congruence|done]|].
      intros (-> & _ & [= ->]). done.
  - split; [done|]. intros (_ & _ & ?); congruence.
  - split; [done|]. intros (_ & _ & ?); congruence.
Qed.

(** X3. A [Delete] that fails changes nothing, and it reports that there is
    no such key exactly when the key file is absent. *)
Theorem Delete_failure ctx key w :
  ctx_Done ctx 0 = false →
  (∀ e w', Delete opts ctx key w = (Err e, w') → w' = w) ∧
  (∀ other w',
     Delete opts ctx key w = (Err (NoSuchKeyError other), w') ↔
     other = key ∧ w' = w ∧
     exists_at (files w) (GetDirForKey opts key +:+ KeyFilename) = false).
Proof.
  intros Hctx. unfold Delete, checkpoint. rewrite Hctx.
  unfold bind, ret, inspect, syscall, checkKeyCollision, readKey, exists_at, os_Lstat, os_Open.
  cbv beta iota zeta. set (dir := GetDirForKey opts key).
  destruct (files w !! clean (dir +:+ KeyFilename)) as [[k|]|] eqn:Hk;
    cbn [error_of os_IsNotExist ioutil_ReadAll_file return_err fail ret];
    cbv beta iota; rewrite ?Hk;
    cbn [error_of os_IsNotExist ioutil_ReadAll_file return_err fail ret]; cbv beta iota.
  - unfold Key_Equals. case_bool_decide as Heq;
      cbn [return_err fail ret os_RemoveAll]; cbv beta iota.
    + split; [done|]. intros other w'. split; [done|]. intros (_ & _ & ?); congruence.
    + split; [by intros e w' [= _ <-]|]. intros other w'.
      split; [done|]. intros (_ & _ & ?); congruence.
  - split; [by intros e w' [= _ <-]|]. intros other w'.
    split; [done|]. intros (_ & _ & ?); congruence.
  - split; [by intros e w' [= _ <-]|]. intros other w'.
    split; [by intros [= -> <-]|]. by intros (-> & -> & _).
Qed.

(** What a successful [Delete] has checked and done. *)
Lemma Delete_Ok ctx key w u w' :
  Delete opts ctx key w = (Ok u, w') →
  ctx_Done ctx 0 = false ∧
  readKey (files w) (GetDirForKey opts key +:+ KeyFilename) = Ok key ∧
  w' = {| files := (os_RemoveAll (files w) (GetDirForKey opts key)).2; rand := rand w |}.
Proof.
  unfold Delete, checkpoint. destruct (ctx_Done ctx 0); [done|].
  unfold bind, ret, inspect, syscall, checkKeyCollision.
  cbv beta iota zeta. set (dir := GetDirForKey opts key).
  destruct (os_IsNotExist _); [done|].
  destruct (readKey (files w) (dir +:+ KeyFilename)) as [old|]; [|done].
  unfold Key_Equals. case_bool_decide as Heq; [|done]. subst old.
  cbn [return_err ret os_RemoveAll]. by intros [= <-].
Qed.

(** X4. A successful [Delete] found the key in the key file, and removes
    the entry directory with everything below it and nothing else. *)
Theorem Delete_removes_directory ctx key w u w' :
  Delete opts ctx key w = (Ok u, w') →
  let dir := clean (GetDirForKey opts key) in
  readKey (files w) (GetDirForKey opts key +:+ KeyFilename) = Ok key ∧
  ∀ q, files w' !! q =
       if bool_decide (q = dir) || under dir q then None else files w !! q.
Proof.
  intros (_ & Hk & ->)%Delete_Ok dir. split; [done|].
  intros q. cbn [files]. apply os_RemoveAll_lookup.
Qed.

(** Once the entry directory is removed, the key file is gone. *)
Lemma removed_entry_Lstat (fs : FS) key :
  entry_below_dir opts key = true →
  os_Lstat (os_RemoveAll fs (GetDirForKey opts key)).2 (GetDirForKey opts key +:+ KeyFilename)
  = Err (PathError "lstat" (GetDirForKey opts key +:+ KeyFilename) ENOENT).
Proof.
  intros Hbelow.
  assert (under (clean (GetDirForKey opts key))
            (clean (GetDirForKey opts key +:+ KeyFilename)) = true) as Hu.
  { unfold entry_below_dir in Hbelow. rewrite forallb_forall in Hbelow.
    apply Hbelow. cbn. auto. }
  unfold os_Lstat. by rewrite os_RemoveAll_lookup, Hu, orb_true_r.
Qed.

Lemma Read_no_key_file (fs : FS) ctx key :
  ctx_Done ctx 0 = false →
  os_Lstat fs (GetDirForKey opts key +:+ KeyFilename)
  = Err (PathError "lstat" (GetDirForKey opts key +:+ KeyFilename) ENOENT) →
  Read opts fs ctx key = Err (NoSuchKeyError key).
Proof. intros Hctx Hl. unfold Read. by rewrite Hctx, Hl. Qed.

(** X5. After a successful [Delete] the key is gone: [Read] and a second
    [Delete] both report that there is no such key. *)
Theorem Delete_then_Read ctx ctx' key w u w' :
  entry_below_dir opts key = true →
  ctx_Done ctx' 0 = false →
  Delete opts ctx key w = (Ok u, w') →
  Read opts (files w') ctx' key = Err (NoSuchKeyError key) ∧
  Delete opts ctx' key w' = (Err (NoSuchKeyError key), w').
Proof.
  intros Hbelow Hctx (_ & _ & ->)%Delete_Ok.
  pose proof (removed_entry_Lstat (files w) key Hbelow) as Hl.
  split; [by apply Read_no_key_file|].
  unfold Delete, checkpoint. rewrite Hctx. unfold bind, ret, inspect.
  cbv beta iota zeta. cbn [files]. by rewrite Hl.
Qed.

(** X6. An entry a [Write] has stored can be deleted: the [Delete] of the
    same key succeeds, whatever the compression setting. *)
Theorem Write_then_Delete ctx ctx' key data w u w' :
  entry_outside_temp opts key = true →
  ctx_Done ctx' 0 = false →
  Write fc opts ctx key data w = (Ok u, w') →
  ∃ w'', Delete opts ctx' key w' = (Ok tt, w'').
Proof.
  intros Hout Hctx [Hk _]%Write_entry; [|done].
  destruct (entry_files opts key KeyFilename) as [Ck _]; [set_solver|done|].
  unfold Delete, checkpoint. rewrite Hctx.
  unfold bind, ret, inspect, syscall, checkKeyCollision, readKey, os_Lstat, os_Open.
  cbv beta iota zeta. rewrite Ck, Hk.
  cbn [error_of os_IsNotExist ioutil_ReadAll_file]. cbv beta iota. rewrite ?Ck, ?Hk.
  cbn [ioutil_ReadAll_file]. cbv beta iota.
  unfold Key_Equals. rewrite bool_decide_eq_true_2 by done.
  cbn [return_err ret os_RemoveAll]. eauto.
Qed.

End EntryProperties.

(** ** Paths and their initial segments *)

Lemma length_append (a b : string) :
  String.length (a +:+ b) = String.length a + String.length b.
Proof. induction a as [|x a IH]; [done|]. rewrite append_cons. cbn. by rewrite IH. Qed.

Lemma prefix_length (a b : string) :
  String.prefix a b = true → String.length a ≤ String.length b.
Proof. intros [r ->]%prefix_inv. rewrite length_append. lia. Qed.

Lemma prefix_refl (a : string) : String.prefix a a = true.
Proof. induction a as [|x a IH]; [done|]. cbn. by destruct (Ascii.ascii_dec x x). Qed.

Lemma clean_slash (a : string) : clean (a +:+ "/") = clean a.
Proof.
  induction a as [|x a IH]; [done|]. rewrite append_cons. cbn. by rewrite IH.
Qed.

Lemma prefix_clean (p : string) : String.prefix (clean p) p = true.
Proof.
  induction p as [|c p IH]; [done|]. cbn.
  destruct (clean p) as [|y r] eqn:E.
  - destruct (Ascii.eqb c "/"); [done|]. cbn.
    by destruct (Ascii.ascii_dec c c); [destruct p|].
  - cbn. by destruct (Ascii.ascii_dec c c).
Qed.

Lemma ancestors_aux_prefix rest : ∀ pre d,
  d ∈ ancestors_aux pre rest → String.prefix d (pre +:+ rest) = true.
Proof.
  induction rest as [|c r IH]; intros pre d; cbn [ancestors_aux].
  - by intros ?%elem_of_nil.
  - intros [Hd|Hd]%elem_of_app.
    + destruct (Ascii.eqb c "/"); [|by apply elem_of_nil in Hd].
      destruct (clean pre) as [|y s] eqn:E; [by apply elem_of_nil in Hd|].
      apply list_elem_of_singleton in Hd as ->. rewrite <- E.
      eapply prefix_trans; [apply prefix_clean|apply prefix_append].
    + apply IH in Hd. by rewrite append_assoc in Hd.
Qed.

(** Every directory [os.MkdirAll] may make is an initial segment of
    the path it is given. *)
Lemma MkdirAll_dirs_prefix (p d : string) :
  d ∈ ancestors (clean p) ++ match clean p with "" => [] | d => [d] end →
  String.prefix d (clean p) = true.
Proof.
  intros [Hd|Hd]%elem_of_app.
  - by apply ancestors_aux_prefix in Hd.
  - destruct (clean p) as [|y s] eqn:E; [by apply elem_of_nil in Hd|].
    apply list_elem_of_singleton in Hd as ->. apply prefix_refl.
Qed.

Lemma under_prefix (d p q : string) :
  String.prefix p q = true → under d p = true → under d q = true.
Proof. unfold under. intros Hp Hd. eapply prefix_trans; done. Qed.

Lemma under_irrefl_prefix (d p : string) :
  String.prefix p d = true → under d p = false.
Proof.
  intros Hp. destruct (under d p) eqn:E; [|done]. unfold under in E.
  apply prefix_length in Hp, E. rewrite length_append in E. cbn in E. lia.
Qed.

(** ** What a call may change in the store *)

Section Frame.

Import local.

Context (P D : string → Prop).

Lemma stable_refl (fs : FS) : stable P D fs fs.
Proof. intros q _. by left. Qed.

Lemma stable_trans (fs1 fs2 fs3 : FS) :
  stable P D fs1 fs2 → stable P D fs2 fs3 → stable P D fs1 fs3.
Proof.
  intros H12 H23 q Hq.
  destruct (H12 q Hq) as [E12|(Hd & H1 & H2)], (H23 q Hq) as [E23|(Hd' & H2' & H3)].
  - left. congruence.
  - right. rewrite <- E12. done.
  - right. rewrite E23. done.
  - congruence.
Qed.

(** A change at paths outside [P] is not seen. *)
Lemma stable_outside (fs fs' : FS) :
  (∀ q, P q → fs' !! q = fs !! q) → stable P D fs fs'.
Proof. intros H q Hq. left. auto. Qed.

Lemma stable_insert (fs : FS) p n : ¬ P p → stable P D fs (<[p := n]> fs).
Proof.
  intros Hp. apply stable_outside. intros q Hq.
  apply lookup_insert_ne. by intros ->.
Qed.

Lemma stable_delete (fs : FS) p : ¬ P p → stable P D fs (delete p fs).
Proof.
  intros Hp. apply stable_outside. intros q Hq.
  apply lookup_delete_ne. by intros ->.
Qed.

Lemma stable_create (fs : FS) path :
  ¬ P (clean path) → stable P D fs (os_OpenFile_create_trunc fs path).2.
Proof.
  intros Hp. unfold os_OpenFile_create_trunc.
  destruct (fs !! clean path) as [[|]|]; cbn [snd];
    auto using stable_refl, stable_insert.
Qed.

Lemma stable_file_Write (fs : FS) f data : ¬ P f → stable P D fs (file_Write fs f data).
Proof.
  intros Hp. apply stable_outside. intros q Hq.
  apply lookup_alter_ne. by intros ->.
Qed.

Lemma stable_mkdirs path ds : ∀ fs : FS,
  (∀ d, d ∈ ds → P d → D d) → stable P D fs (mkdirs path ds fs).2.
Proof.
  induction ds as [|d ds IH]; intros fs HD; cbn [mkdirs]; [apply stable_refl|].
  assert (∀ d', d' ∈ ds → P d' → D d') as HD' by (intros; apply HD; set_solver).
  destruct (fs !! d) as [[|]|] eqn:E; [apply stable_refl|by apply IH|].
  eapply stable_trans; [|by apply IH].
  intros q Hq. destruct (decide (q = d)) as [->|Hne].
  - right. rewrite lookup_insert_eq. split; [apply HD; set_solver|done].
  - left. by apply lookup_insert_ne.
Qed.

Lemma stable_MkdirAll (fs : FS) path :
  (∀ d, String.prefix d (clean path) = true → P d → D d) →
  stable P D fs (os_MkdirAll fs path).2.
Proof.
  intros HD. apply stable_mkdirs. intros d Hd. by apply HD, MkdirAll_dirs_prefix.
Qed.

Lemma stable_Remove (fs : FS) path : ¬ P (clean path) → stable P D fs (os_Remove fs path).2.
Proof.
  intros Hp. destruct (os_Remove fs path) as [err fs'] eqn:E.
  apply os_Remove_spec in E as [(_ & ->)|[(_ & -> & _)|(_ & _ & ->)]]; cbn [snd];
    auto using stable_refl, stable_delete.
Qed.

Lemma stable_Rename (fs : FS) old new :
  ¬ P (clean old) → ¬ P (clean new) → stable P D fs (os_Rename fs old new).2.
Proof.
  intros Ho Hn. unfold os_Rename.
  destruct (fs !! clean old) as [[c|]|]; cbn [snd]; [|apply stable_refl..].
  destruct (fs !! clean new) as [[|]|]; cbn [snd]; [|apply stable_refl|];
    (eapply stable_trans; [apply stable_delete|apply stable_insert]; done).
Qed.

Lemma stable_RemoveAll (fs : FS) path :
  (∀ q, P q → q ≠ clean path ∧ under (clean path) q = false) →
  stable P D fs (os_RemoveAll fs path).2.
Proof.
  intros Hp. apply stable_outside. intros q [Hne Hu]%Hp.
  rewrite os_RemoveAll_lookup, Hu. by rewrite bool_decide_eq_false_2.
Qed.

(** *** The same for the calls of the engine *)

Lemma keeps_ret {A} (a : A) : preserves (stable P D) (ret a).
Proof. intros w r w' [= _ <-]. apply stable_refl. Qed.

Lemma keeps_fail {A} e : preserves (stable P D) (@fail A e).
Proof. intros w r w' [= _ <-]. apply stable_refl. Qed.

Lemma keeps_inspect {A} (f : FS → A) : preserves (stable P D) (inspect f).
Proof. intros w r w' [= _ <-]. apply stable_refl. Qed.

Lemma keeps_return_err err : preserves (stable P D) (return_err err).
Proof. destruct err; [apply keeps_fail|apply keeps_ret]. Qed.

Lemma keeps_syscall {A} (f : FS → A * FS) :
  (∀ fs, stable P D fs (f fs).2) → preserves (stable P D) (syscall f).
Proof.
  intros Hf w r w'. unfold syscall. specialize (Hf (files w)).
  destruct (f (files w)) as [a fs]. by intros [= _ <-].
Qed.

Lemma keeps_update (f : FS → FS) :
  (∀ fs, stable P D fs (f fs)) → preserves (stable P D) (update f).
Proof. intros Hf w r w' [= _ <-]. apply Hf. Qed.

Lemma keeps_bind {A B} (m : M A) (k : A → M B) :
  preserves (stable P D) m →
  (∀ a w w', m w = (Ok a, w') → preserves (stable P D) (k a)) →
  preserves (stable P D) (bind m k).
Proof.
  intros Hm Hk w r w'. unfold bind. destruct (m w) as [[a|e] w1] eqn:E.
  - intros H. eapply stable_trans; [by eapply Hm|]. eapply Hk; done.
  - intros [= _ <-]. by eapply Hm.
Qed.

(** What follows a [select] on the context runs only if the context
    was not done. *)
Lemma keeps_checkpoint {B} ctx i (k : M B) :
  (ctx_Done ctx i = false → preserves (stable P D) k) →
  preserves (stable P D) (bind (checkpoint ctx i) (λ _, k)).
Proof.
  intros Hk. unfold checkpoint. destruct (ctx_Done ctx i).
  - intros w r w' [= _ <-]. apply stable_refl.
  - apply keeps_bind; [apply keeps_ret|auto].
Qed.

Lemma keeps_defer {A B} (cleanup : FS → B * FS) (body : M A) :
  preserves (stable P D) body →
  (∀ fs, stable P D fs (cleanup fs).2) →
  preserves (stable P D) (defer cleanup body).
Proof.
  intros Hb Hc w r w'. unfold defer. destruct (body w) as [r1 w1] eqn:E.
  intros [= _ <-]. eapply stable_trans; [by eapply Hb|apply Hc].
Qed.

Lemma keeps_createFile path : ¬ P (clean path) → preserves (stable P D) (createFile path).
Proof.
  intros Hp. unfold createFile. apply keeps_bind.
  - apply keeps_syscall. intros fs. by apply stable_create.
  - intros [f|e] _ _ _; [apply keeps_ret|apply keeps_fail].
Qed.

Lemma keeps_write_file path (data : bytes) :
  ¬ P (clean path) →
  preserves (stable P D) (f <- createFile path ;; update (λ fs, file_Write fs f data)).
Proof.
  intros Hp. apply keeps_bind; [by apply keeps_createFile|].
  intros f w w' [-> _]%createFile_Ok. apply keeps_update.
  intros fs. by apply stable_file_Write.
Qed.

Lemma keeps_removeDataFiles dir names :
  (∀ f, f ∈ names → ¬ P (clean (dir +:+ f))) →
  preserves (stable P D) (removeDataFiles dir names).
Proof.
  induction names as [|f names IH]; intros Hn; cbn [removeDataFiles]; [apply keeps_ret|].
  apply keeps_bind.
  - apply keeps_syscall. intros fs. apply stable_Remove, Hn. set_solver.
  - intros err _ _ _. destruct (_ && _).
    + destruct err; [apply keeps_fail|apply keeps_ret].
    + apply IH. intros f' Hf'. apply Hn. set_solver.
Qed.

End Frame.

(** ** The temp directory *)

Lemma HasSuffix_inv (s suffix : string) :
  HasSuffix s suffix = true → ∃ a, s = a +:+ suffix.
Proof.
  induction s as [|c s IH]; cbn [HasSuffix].
  - destruct (String.eqb_spec "" suffix) as [<-|]; [by exists ""|done].
  - destruct (String.eqb_spec (String c s) suffix) as [<-|]; [by exists ""|].
    intros [a ->]%IH. by exists (String c a).
Qed.

Lemma HasSuffix_append (a suffix : string) : HasSuffix (a +:+ suffix) suffix = true.
Proof.
  induction a as [|c a IH].
  - change ("" +:+ suffix) with suffix.
    destruct suffix; cbn [HasSuffix]; by rewrite String.eqb_refl.
  - rewrite append_cons. cbn [HasSuffix]. by destruct (String.eqb _ _).
Qed.

Lemma prefix_clean_slash (a f : string) :
  String.prefix (clean a +:+ "/") (a +:+ "/" +:+ f) = true.
Proof.
  induction a as [|c a IH].
  - change (String.prefix (String "/" "") (String "/" f) = true). cbn.
    by destruct f.
  - rewrite append_cons. cbn [clean].
    destruct (clean a) as [|y r] eqn:E.
    + destruct (Ascii.eqb_spec c "/") as [->|].
      * change (String.prefix (String "/" "") (String "/" (a +:+ "/" +:+ f)) = true).
        cbn. by destruct (a +:+ "/" +:+ f).
      * rewrite append_cons. cbn [String.prefix]. by destruct (Ascii.ascii_dec c c).
    + rewrite append_cons. cbn [String.prefix]. by destruct (Ascii.ascii_dec c c).
Qed.

(** The files made in a directory whose path ends with the separator
    are stored below it. *)
Lemma under_clean_dir (d f : string) :
  HasSuffix d PathSeparator = true → under (clean d) (d +:+ f) = true.
Proof.
  intros [a ->]%HasSuffix_inv. unfold under, PathSeparator.
  rewrite clean_slash, append_assoc. apply prefix_clean_slash.
Qed.

Section TempDir.

Import local.

Context (opts : Options).

Lemma ioutil_TempDir_spec dir pfx rnd : ∀ (fs : FS) name err rnd' fs',
  ioutil_TempDir dir pfx rnd fs = ((name, err), (rnd', fs')) →
  (err ≠ None ∧ fs' = fs) ∨
  (err = None ∧ (∃ s, s ∈ rnd ∧ name = filepath_Join dir (pfx +:+ s)) ∧
   fs !! clean name = None ∧ fs' = <[clean name := Dir]> fs).
Proof.
  induction rnd as [|suffix rnd IH]; intros fs name err rnd' fs' H; cbn in H.
  - inversion H; subst. by left.
  - unfold os_Mkdir in H.
    destruct (fs !! clean (filepath_Join dir (pfx +:+ suffix))) eqn:E.
    + apply IH in H as [?|(? & (s & ? & ?) & ? & ?)]; [by left|].
      right. split; [done|]. split; [|done]. exists s. split; [set_solver|done].
    + inversion H; subst. right. split; [done|]. split; [|done].
      exists suffix. split; [set_solver|done].
Qed.

Lemma getTempDir_spec w tmpdir err w' :
  getTempDir opts w = ((tmpdir, err), w') →
  let fs1 := (os_MkdirAll (files w) (GetRootTempDir opts)).2 in
  (err ≠ None ∧ files w' = fs1) ∨
  (err = None ∧ HasSuffix tmpdir PathSeparator = true ∧
   (∃ s, s ∈ rand w ∧
      (tmpdir = filepath_Join (GetRootTempDir opts) (tempDirPrefix +:+ s) ∨
       tmpdir = filepath_Join (GetRootTempDir opts) (tempDirPrefix +:+ s) +:+ PathSeparator)) ∧
   fs1 !! clean tmpdir = None ∧ files w' = <[clean tmpdir := Dir]> fs1).
Proof.
  unfold getTempDir.
  destruct (os_MkdirAll (files w) (GetRootTempDir opts)) as [e fs]. cbn [snd].
  destruct (bool_decide (e ≠ None) && negb (os_IsExist e)) eqn:E.
  - intros [= <- -> <-]. left. split; [|done].
    apply andb_true_iff in E as [E _]. by apply bool_decide_eq_true in E.
  - destruct (ioutil_TempDir _ _ _ _) as [[dir e'] [rnd fs']] eqn:Ht.
    intros [= <- -> <-]. cbn [files].
    apply ioutil_TempDir_spec in Ht as [[? ->]|(-> & (s & Hs & ->) & Hnone & ->)];
      [by left|right].
    split; [done|].
    destruct (HasSuffix (filepath_Join _ _) PathSeparator) eqn:Hsuf; cbn [negb].
    + split; [done|]. split; [eauto|done].
    + split; [apply HasSuffix_append|]. split; [eauto|].
      unfold PathSeparator. by rewrite clean_slash.
Qed.

End TempDir.

(** ** What a [Write] may change, however it ends *)

Section WriteFootprint.

Import local.

Context (fc : FlateCodec) (opts : Options).

Lemma bind_inv {A B} (m : M A) (k : A → M B) w r w' :
  bind m k w = (r, w') →
  (∃ e, m w = (Err e, w') ∧ r = Err e) ∨
  (∃ a w1, m w = (Ok a, w1) ∧ k a w1 = (r, w')).
Proof.
  unfold bind. destruct (m w) as [[a|e] w1]; [eauto|]. intros [= <- <-]. eauto.
Qed.

Lemma checkpoint_same ctx i w r w' :
  checkpoint ctx i w = (r, w') → w' = w.
Proof. unfold checkpoint. destruct (ctx_Done ctx i); by intros [= _ <-]. Qed.

Lemma return_err_same err w r w' : return_err err w = (r, w') → w' = w.
Proof. destruct err; by intros [= _ <-]. Qed.

(** The paths a [Write] may touch: the three files of the entry, and
    these only once the context was found not done at the fourth poll;
    directories on the way to the temp root and to the entry
    directory, which are made where missing; everything else it
    touches lies below the temp root and is gone when it returns. *)
Lemma Write_footprint ctx key data w r w' :
  Write fc opts ctx key data w = (r, w') →
  ∀ q,
    files w' !! q = files w !! q
    ∨ (files w !! q = None ∧ files w' !! q = Some Dir ∧
       (String.prefix q (clean (GetRootTempDir opts)) = true ∨
        String.prefix q (clean (GetDirForKey opts key)) = true))
    ∨ (q ∈ entry_paths opts key ∧ ctx_Done ctx 3 = false)
    ∨ (in_temp opts q = true ∧ files w' !! q = None).
Proof.
  intros H q. unfold Write in H. set (dir := GetDirForKey opts key) in *.
  apply bind_inv in H as [(e & Hm & ->)|(? & w1 & Hm & H)];
    apply checkpoint_same in Hm as ->; [by left|].
  apply bind_inv in H as [(e & Hm & ->)|(st & w2 & Hm & H)]; [done|].
  injection Hm as _ <-.
  apply bind_inv in H as [(e & Hm & ->)|(? & w3 & Hm & H)].
  { destruct st; [|done].
    apply bind_inv in Hm as [(e' & Hm & _)|(? & ? & [= _ <-] & ->%return_err_same)];
      [done|by left]. }
  assert (w3 = w) as ->.
  { destruct st; [|by injection Hm].
    by apply bind_inv in Hm as [(e' & Hm & _)|(? & ? & [= _ <-] & ->%return_err_same)]. }
  clear Hm.
  apply bind_inv in H as [(e & Hm & ->)|([tmpdir err] & w4 & Hm & H)].
  { by destruct (getTempDir opts w). }
  destruct (getTempDir opts w) as [tr w4'] eqn:Hg. injection Hm as -> ->.
  pose (D := λ q, String.prefix q (clean (GetRootTempDir opts)) = true ∨
                  String.prefix q (clean dir) = true).
  assert (∀ P : string → Prop, stable P D (files w)
            (os_MkdirAll (files w) (GetRootTempDir opts)).2) as Hroot.
  { intros P. apply stable_MkdirAll. intros d Hd _. by left. }
  pose proof (getTempDir_spec _ _ _ _ _ Hg) as Hspec. cbv zeta in Hspec.
  destruct Hspec as [[Herr Hf]|(-> & Hsuf & _ & Hfresh & Hf)].
  { (* no temp directory *)
    apply bind_inv in H as [(e & Hm & ->)|(? & ? & Hm & _)];
      [|by destruct err].
    apply return_err_same in Hm as ->.
    destruct (Hroot (λ _, True) q I) as [Hq|(Hd & ? & ?)]; rewrite Hf; auto. }
  apply getTempDir_Ok in Hg as [s Htmp].
  apply bind_inv in H as [(e & Hm & ->)|(? & w5 & Hm & H)]; [done|].
  injection Hm as _ <-. unfold defer in H.
  match type of H with
  | context [let '(_, _) := ?b w4 in _] => destruct (b w4) as [res w6] eqn:Hb
  end.
  assert (files w' = (os_RemoveAll (files w6) tmpdir).2) as -> by (by inversion H).
  assert (res = r) as -> by (by inversion H). clear H.
  (* below the temp directory *)
  rewrite os_RemoveAll_lookup.
  destruct (bool_decide (q = clean tmpdir) || under (clean tmpdir) q) eqn:Hq.
  { right; right; right. split; [|done].
    destruct (in_temp opts q) eqn:Hin; [done|].
    destruct (temp_dir opts tmpdir s q Htmp Hin) as [Hne Hu].
    by rewrite Hu, bool_decide_eq_false_2 in Hq. }
  apply orb_false_iff in Hq as [Hne%bool_decide_eq_false Hu].
  destruct (decide (q ∈ entry_paths opts key ∧ ctx_Done ctx 3 = false)) as [He|He]; [auto|].
  (* everywhere else *)
  pose (P := λ q : string,
          (q ≠ clean tmpdir ∧ under (clean tmpdir) q = false) ∧
          ¬ (q ∈ entry_paths opts key ∧ ctx_Done ctx 3 = false)).
  assert (∀ f, f ∈ [KeyFilename; DataFilename; GzipDataFilename] →
               ¬ P (clean (tmpdir +:+ f))) as Htemp.
  { intros f Hin [[_ HP] _].
    assert (clean (tmpdir +:+ f) = tmpdir +:+ f) as Hc.
    { repeat (apply elem_of_cons in Hin as [->|Hin];
                [by apply (temp_file opts tmpdir s _ Htmp)|]).
      by apply elem_of_nil in Hin. }
    by rewrite Hc, under_clean_dir in HP. }
  assert (ctx_Done ctx 3 = false →
          ∀ f, f ∈ [KeyFilename; DataFilename; GzipDataFilename] →
               ¬ P (clean (dir +:+ f))) as Hentry.
  { intros Hctx f Hin [_ HP]. apply HP. split; [|done].
    unfold entry_paths. apply list_elem_of_fmap. eauto. }
  assert (stable P D (files w) (files w4)) as H04.
  { rewrite Hf. eapply stable_trans; [apply Hroot|].
    apply stable_insert. by intros [[? _] _]. }
  assert (stable P D (files w4) (files w6)) as H46.
  { revert Hb.
    match goal with |- ?b w4 = _ → _ => cut (preserves (stable P D) b) end.
    { intros Hk Hb. by eapply Hk. }
    apply keeps_checkpoint. intros _.
    apply keeps_bind; [apply keeps_write_file, Htemp; set_solver|]. intros _ _ _ _.
    apply keeps_checkpoint. intros _.
    apply keeps_bind.
    { destruct (GetUseGzip opts).
      - unfold writeGzipData. apply keeps_bind; [apply keeps_createFile, Htemp; set_solver|].
        intros f ? ? [-> _]%createFile_Ok.
        destruct (gzip.NewWriterLevel _); [|apply keeps_fail].
        apply keeps_update. intros fs. apply stable_file_Write, Htemp. set_solver.
      - apply keeps_write_file, Htemp. set_solver. }
    intros _ _ _ _. apply keeps_checkpoint. intros Hctx.
    apply keeps_bind.
    { apply keeps_syscall. intros fs. apply stable_MkdirAll. intros d Hd _. by right. }
    intros err1 _ _ _. apply keeps_bind.
    { destruct (_ && _); [apply keeps_return_err|apply keeps_ret]. }
    intros _ _ _ _. apply keeps_bind.
    { apply keeps_removeDataFiles. intros f Hin. apply Hentry; [done|by constructor]. }
    intros _ _ _ _. apply keeps_bind.
    { apply keeps_syscall. intros fs.
      destruct (GetUseGzip opts);
        (apply stable_Rename; [apply Htemp|apply Hentry; [done|]]; set_solver). }
    intros err2 _ _ _. apply keeps_bind; [apply keeps_return_err|].
    intros _ _ _ _. apply keeps_checkpoint. intros _.
    apply keeps_bind; [|intros; apply keeps_return_err].
    apply keeps_syscall. intros fs.
    apply stable_Rename; [apply Htemp|apply Hentry; [done|]]; set_solver. }
  destruct (stable_trans _ _ _ _ _ H04 H46 q) as [Hsame|(HD & Hnone & Hdir)]; [done|auto..].
Qed.

(** X7. The directory [getTempDir] hands out is ready to use: its path
    ends with the separator and lies below the temp root, it was not
    there before and is a directory now, made under a name that starts
    with the prefix; no regular file has changed. *)
Theorem getTempDir_ready w tmpdir w' :
  getTempDir opts w = ((tmpdir, None), w') →
  HasSuffix tmpdir PathSeparator = true ∧
  in_temp opts tmpdir = true ∧
  (∃ s, s ∈ rand w ∧
     clean tmpdir = clean (filepath_Join (GetRootTempDir opts) (tempDirPrefix +:+ s))) ∧
  files w !! clean tmpdir = None ∧
  files w' !! clean tmpdir = Some Dir ∧
  same_files (λ _, True) (files w) (files w').
Proof.
  intros Hg. pose proof (getTempDir_spec _ _ _ _ _ Hg) as Hspec. cbv zeta in Hspec.
  destruct Hspec as [[? _]|(_ & Hsuf & (s & Hs & Hname) & Hfresh & Hf)]; [done|].
  apply getTempDir_Ok in Hg as [r Htmp].
  pose proof (stable_MkdirAll (λ _, True) (λ _, True) (files w) (GetRootTempDir opts)
                (λ _ _ _, I)) as Hroot.
  split; [done|]. split; [|split; [|split; [|split]]].
  - rewrite Htmp. unfold in_temp, under. apply prefix_append.
  - exists s. split; [done|].
    destruct Hname as [->| ->]; [done|]. unfold PathSeparator. apply clean_slash.
  - destruct (Hroot (clean tmpdir) I) as [E|(_ & E & _)]; congruence.
  - rewrite Hf. apply lookup_insert_eq.
  - intros q _ c. rewrite Hf.
    destruct (decide (q = clean tmpdir)) as [->|Hne].
    + rewrite lookup_insert_eq.
      destruct (Hroot (clean tmpdir) I) as [E|(_ & E & _)]; split; congruence.
    + rewrite lookup_insert_ne by done.
      destruct (Hroot q I) as [->|(_ & E & E')]; [done|]. by rewrite E, E'.
Qed.

(** A [Write] returns nil only if the context was not done at any of
    its five polls. *)
Lemma Write_Ok_polls ctx key data w u w' :
  Write fc opts ctx key data w = (Ok u, w') →
  ∀ i, i < 5 → ctx_Done ctx i = false.
Proof.
  intros H. unfold Write in H.
  apply bind_Ok in H as (? & w1 & [H0 _]%checkpoint_Ok & H).
  apply bind_Ok in H as (st & w2 & _ & H).
  apply bind_Ok in H as (? & w3 & _ & H).
  apply bind_Ok in H as ([tmpdir err] & w4 & _ & H).
  apply bind_Ok in H as (? & w5 & _ & H).
  unfold defer in H.
  match type of H with
  | context [let '(_, _) := ?b w5 in _] => destruct (b w5) as [res w6] eqn:Hb
  end.
  assert (res = Ok u) as -> by (by inversion H). clear H.
  apply bind_Ok in Hb as (? & w7 & [H1 _]%checkpoint_Ok & Hb).
  apply bind_Ok in Hb as (? & w8 & _ & Hb).
  apply bind_Ok in Hb as (? & w9 & [H2 _]%checkpoint_Ok & Hb).
  apply bind_Ok in Hb as (? & w10 & _ & Hb).
  apply bind_Ok in Hb as (? & w11 & [H3 _]%checkpoint_Ok & Hb).
  apply bind_Ok in Hb as (? & w12 & _ & Hb).
  apply bind_Ok in Hb as (? & w13 & _ & Hb).
  apply bind_Ok in Hb as (? & w14 & _ & Hb).
  apply bind_Ok in Hb as (? & w15 & _ & Hb).
  apply bind_Ok in Hb as (? & w16 & _ & Hb).
  apply bind_Ok in Hb as (? & w17 & [H4 _]%checkpoint_Ok & Hb).
  intros i Hi. by do 5 (destruct i as [|i]; [done|]); lia.
Qed.

(** X8. Whatever a [Write] returns, the regular files outside the temp
    root other than the three of the entry are what they were. *)
Theorem Write_keeps_other_files ctx key data w :
  same_files (λ q, in_temp opts q = false ∧ q ∉ entry_paths opts key)
    (files w) (files (Write fc opts ctx key data w).2).
Proof.
  destruct (Write fc opts ctx key data w) as [r w'] eqn:H. cbn [snd].
  intros q [Hout Hne] c.
  destruct (Write_footprint _ _ _ _ _ _ H q)
    as [->|[(E & E' & _)|[[? _]|[? _]]]]; [done| |done|congruence].
  by rewrite E, E'.
Qed.

(** X9. A [Write] whose context is done by the fourth poll, the last one
    before the entry directory is touched, fails and leaves every
    regular file outside the temp root as it was: the old value of the
    key stays readable. *)
Theorem Write_cancelled_keeps_entry ctx key data w :
  ctx_Done ctx 3 = true →
  (∃ e, (Write fc opts ctx key data w).1 = Err e) ∧
  same_files (λ q, in_temp opts q = false)
    (files w) (files (Write fc opts ctx key data w).2).
Proof.
  intros Hctx. destruct (Write fc opts ctx key data w) as [r w'] eqn:H. cbn [fst snd].
  split.
  - destruct r as [u|e]; [|eauto].
    apply Write_Ok_polls with (i := 3) in H; [congruence|lia].
  - intros q Hout c.
    destruct (Write_footprint _ _ _ _ _ _ H q)
      as [->|[(E & E' & _)|[[_ ?]|[? _]]]]; [done| |congruence..].
    by rewrite E, E'.
Qed.

(** X10. Whatever a [Write] returns, it leaves nothing behind below the
    temp root: what is found there afterwards was there before. *)
Theorem Write_leaves_no_temp ctx key data w :
  entry_outside_temp opts key = true →
  ∀ q n, in_temp opts q = true →
    files (Write fc opts ctx key data w).2 !! q = Some n → files w !! q = Some n.
Proof.
  intros Hout q n Hin. destruct (Write fc opts ctx key data w) as [r w'] eqn:H. cbn [snd].
  destruct (Write_footprint _ _ _ _ _ _ H q)
    as [->|[(_ & _ & [Hp|Hp])|[[He _]|[_ ->]]]]; [done| | | |done]; exfalso.
  - apply under_irrefl_prefix in Hp. unfold in_temp in Hin. congruence.
  - destruct (entry_files opts key KeyFilename) as [_ Ik]; [set_solver|done|].
    unfold in_temp in *.
    enough (under (clean (GetRootTempDir opts)) (GetDirForKey opts key +:+ KeyFilename)
            = true) by congruence.
    eapply under_prefix; [|exact Hin].
    eapply prefix_trans; [exact Hp|].
    eapply prefix_trans; [apply prefix_clean|apply prefix_append].
  - unfold entry_paths in He. apply list_elem_of_fmap in He as (f & -> & Hf).
    destruct (entry_files opts key f Hf Hout) as [Cf If]. congruence.
Qed.

(** *** Other keys *)

(** [Read] looks at the three files of the entry and at nothing else. *)
Lemma Read_ext (fs fs' : FS) ctx key :
  (∀ p, p ∈ entry_paths opts key → fs' !! p = fs !! p) →
  Read opts fs' ctx key = Read opts fs ctx key.
Proof.
  intros H. unfold Read, checkKeyCollision, readKey, os_Lstat, os_Open.
  rewrite !H; [done|unfold entry_paths; set_solver..].
Qed.

(** X11. A [Write] does not disturb other keys: whatever it returns, a
    [Read] of a key whose three files are outside the temp root, are
    not files of the written entry and are not on the way to the
    directories the [Write] makes, gives afterwards what it gave
    before. *)
Theorem Write_leaves_other_keys ctx ctx' key data w key' :
  Forall (λ p, in_temp opts p = false ∧ (p ∉ entry_paths opts key) ∧
               String.prefix p (clean (GetRootTempDir opts)) = false ∧
               String.prefix p (clean (GetDirForKey opts key)) = false)
    (entry_paths opts key') →
  Read opts (files (Write fc opts ctx key data w).2) ctx' key' = Read opts (files w) ctx' key'.
Proof.
  intros Hall. destruct (Write fc opts ctx key data w) as [r w'] eqn:H. cbn [snd].
  apply Read_ext. intros p Hp.
  rewrite Forall_forall in Hall. destruct (Hall p Hp) as (Hin & Hne & Hr & Hd).
  destruct (Write_footprint _ _ _ _ _ _ H p)
    as [E|[(_ & _ & [Hp'|Hp'])|[[? _]|[? _]]]]; [done|congruence..].
Qed.

(** X12. A [Delete] does not disturb keys stored elsewhere: whatever it
    returns, a [Read] of a key whose three files are neither the
    deleted directory nor below it gives afterwards what it gave
    before. *)
Theorem Delete_leaves_other_keys ctx ctx' key w key' :
  Forall (λ p, p ≠ clean (GetDirForKey opts key) ∧
               under (clean (GetDirForKey opts key)) p = false)
    (entry_paths opts key') →
  Read opts (files (Delete opts ctx key w).2) ctx' key' = Read opts (files w) ctx' key'.
Proof.
  intros Hall. destruct (Delete opts ctx key w) as [[u|e] w'] eqn:H; cbn [snd].
  - apply Delete_Ok in H as (_ & _ & ->). cbn [files].
    apply Read_ext. intros p Hp.
    rewrite Forall_forall in Hall. destruct (Hall p Hp) as [Hne Hu].
    rewrite os_RemoveAll_lookup, Hu. by rewrite bool_decide_eq_false_2.
  - enough (w' = w) as -> by done.
    revert H. unfold Delete, checkpoint. destruct (ctx_Done ctx 0); [by intros [= _ <-]|].
    unfold bind, ret, inspect, syscall. cbv beta iota zeta.
    destruct (os_IsNotExist _); [by intros [= _ <-]|].
    destruct (checkKeyCollision _ _ _); cbn [return_err fail ret os_RemoveAll];
      [by intros [= _ <-]|done].
Qed.

End WriteFootprint.

(** ** What holds along a scan *)

Section ScanInvariants.

Import local.

(** [Pre] holds of the state wherever the walk goes on, [J] of every
    outcome together with the state it leaves. *)
Context (Pre : Scan → Prop) (J : outcome (option error) * Scan → Prop).

Hypothesis J_end : ∀ s, Pre s → J (Returns None, s).
Hypothesis J_next : ∀ s, J (Returns None, s) → Pre s.
Hypothesis J_skip : ∀ s, J (Returns (Some filepath_SkipDir), s) → Pre s.

Lemma walk_names_invariant walk (walkFn : WalkFunc) path names :
  (∀ path isDir err s, Pre s → J (walkFn path isDir err s)) →
  Forall (λ c, ∀ path s, Pre s → J (walk path c s)) names →
  ∀ s, Pre s → J (walk_names walk walkFn path names s).
Proof using J_end J_next J_skip.
  intros Hfn Hall. induction Hall as [|c cs Hc _ IH]; intros s Hs; cbn [walk_names].
  - by apply J_end.
  - destruct c as [n e|n|n cs'|n e]; cbn [node_name IsDir].
    + pose proof (Hfn (filepath_Join path n) false (Some e) s Hs) as Hr.
      destruct (walkFn (filepath_Join path n) false (Some e) s) as [[[e'|]|] s'];
        [|by apply IH, J_next|done].
      destruct e'; try done. by apply IH, J_skip.
    + pose proof (Hc (filepath_Join path n) s Hs) as Hr.
      destruct (walk (filepath_Join path n) (WFile n) s) as [[[e'|]|] s'];
        [|by apply IH, J_next|done].
      destruct e'; done.
    + pose proof (Hc (filepath_Join path n) s Hs) as Hr.
      destruct (walk (filepath_Join path n) (WDir n cs') s) as [[[e'|]|] s'];
        [|by apply IH, J_next|done].
      destruct e'; try done. by apply IH, J_skip.
    + pose proof (Hc (filepath_Join path n) s Hs) as Hr.
      destruct (walk (filepath_Join path n) (WDirErr n e) s) as [[[e'|]|] s'];
        [|by apply IH, J_next|done].
      destruct e'; try done. by apply IH, J_skip.
Qed.

Lemma filepath_walk_invariant (walkFn : WalkFunc) :
  (∀ path isDir err s, Pre s → J (walkFn path isDir err s)) →
  ∀ t path s, Pre s → J (filepath_walk walkFn path t s).
Proof using J_end J_next J_skip.
  intros Hfn t. induction t as [name e|name|name children IH|name e]
    using WalkTree_forall_ind; intros path s Hs; cbn [filepath_walk]; try by apply Hfn.
  pose proof (Hfn path true None s Hs) as H0.
  destruct (walkFn path true None s) as [[[e'|]|] s0]; [done| |done].
  apply walk_names_invariant; auto.
Qed.

End ScanInvariants.

Section ScanKeysProperties.

Import local.

Context (opts : Options).

(** X13. A scan creates and changes nothing in the store: it only removes,
    and every key it hands to [keyFunc] is the content of a file named
    [key] of the store it started from. *)
Theorem ScanKeys_only_removes ctx keyFunc errFunc observed (fs : FS) :
  let s := (ScanKeys opts ctx keyFunc errFunc observed fs).2 in
  s_files s ⊆ fs ∧ Forall (key_file_of fs) (s_keys s).
Proof.
  cbv zeta. unfold ScanKeys. destruct (ctx_Done ctx 0); [by cbn|].
  pose (Pre := λ s : Scan, s_files s ⊆ fs ∧ Forall (key_file_of fs) (s_keys s)).
  pose (J := λ rs : outcome (option error) * Scan, Pre rs.2).
  assert (J (filepath_walk (scanFn ctx keyFunc errFunc) (GetRootDataDir opts) observed
               {| s_files := fs; s_polls := 1; s_keys := [] |})) as H.
  { apply (filepath_walk_invariant Pre J); try done.
    intros path isDir err s [Hsub Hkeys]. unfold J, Pre, scanFn.
    destruct (ctx_Done ctx (s_polls s)); [done|].
    destruct err as [e|].
    { destruct (call_errFunc errFunc path e) as [[|]|]; done. }
    destruct isDir.
    { cbn [snd s_files s_keys]. split; [|done].
      etrans; [|exact Hsub].
      destruct (os_Remove (s_files s) path) as [err fs'] eqn:E.
      apply os_Remove_spec in E as [(_ & ->)|[(_ & -> & _)|(_ & _ & ->)]]; cbn [snd];
        [apply delete_subseteq|done..]. }
    destruct (String.eqb_spec (filepath_Base path) KeyFilename) as [Hbase|]; [|done].
    cbn [s_files]. unfold readKey, os_Open.
    destruct (s_files s !! clean path) as [[key|]|] eqn:Hk; cbn [ioutil_ReadAll_file].
    - assert (Pre {| s_files := s_files s; s_polls := S (s_polls s);
                     s_keys := s_keys s ++ [key] |}) as Hpre.
      { split; [done|]. cbn [s_keys]. apply Forall_app. split; [done|].
        apply Forall_singleton. exists path. split; [done|].
        eapply lookup_weaken; done. }
      by destruct (negb (keyFunc key)).
    - destruct (call_errFunc errFunc path _) as [[|]|]; done.
    - destruct (call_errFunc errFunc path _) as [[|]|]; done. }
  unfold filepath_Walk.
  destruct (filepath_walk _ _ _ _) as [[[e|]|] s]; [|done..].
  destruct e; done.
Qed.

(** X14. With an [errFunc] given, [ScanKeys] does not panic, and an error
    it returns is the cancellation of the context or one that
    [errFunc] declined to ignore; it is never [SkipDir] or the marker
    of a scan that [keyFunc] ended. *)
Theorem ScanKeys_errFunc_outcome ctx keyFunc (f : ErrFunc) observed (fs : FS) :
  let r := (ScanKeys opts ctx keyFunc (Some f) observed fs).1 in
  r = Returns None ∨
  ∃ e, r = Returns (Some e) ∧
       e ≠ filepath_SkipDir ∧ e ≠ errCanceled ∧
       ((e = context_Canceled ∧ ∃ i, ctx_Done ctx i = true) ∨ ∃ path, f path e = false).
Proof.
  cbv zeta. unfold ScanKeys. destruct (ctx_Done ctx 0) eqn:H0; [cbn; eauto 10|].
  pose (J := λ rs : outcome (option error) * Scan,
          rs.1 = Returns None ∨
          ∃ e, rs.1 = Returns (Some e) ∧
               (e = filepath_SkipDir ∨ e = errCanceled ∨
                (e = context_Canceled ∧ ∃ i, ctx_Done ctx i = true) ∨
                ∃ path, f path e = false)).
  assert (J (filepath_walk (scanFn ctx keyFunc (Some f)) (GetRootDataDir opts) observed
               {| s_files := fs; s_polls := 1; s_keys := [] |})) as H.
  { apply (filepath_walk_invariant (λ _, True) J); try done; [by left|].
    intros path isDir err s _. unfold J, scanFn, call_errFunc.
    destruct (ctx_Done ctx (s_polls s)) eqn:Hc; [cbn; eauto 10|].
    destruct err as [e|].
    { destruct (f path e) eqn:E; cbn; eauto 10. }
    destruct isDir; [by left|].
    destruct (String.eqb _ _); [|by left].
    destruct (readKey _ path) as [key|e]; cbn [s_files].
    - destruct (negb (keyFunc key)); cbn; eauto 10.
    - destruct (f path e) eqn:E; cbn; eauto 10. }
  unfold filepath_Walk.
  destruct (filepath_walk _ _ _ _) as [r s]. unfold J in H. cbn [fst] in H.
  destruct H as [->|(e & -> & H)]; [by left|].
  destruct e; cbn; try (by left);
    (right; eexists; split; [done|]; split; [done|]; split; [done|];
     destruct H as [?|[?|H]]; [done..|exact H]).
Qed.

(** X15. Keys are handed to [keyFunc] until it returns false: then the scan
    stops, no further key is handed over, and [ScanKeys] does not
    report an error. *)
Theorem ScanKeys_stops_when_keyFunc_declines ctx keyFunc errFunc observed (fs : FS) :
  let '(r, s) := ScanKeys opts ctx keyFunc errFunc observed fs in
  Forall (λ k, keyFunc k = true) (s_keys s) ∨
  (r = Returns None ∧
   ∃ ks k, s_keys s = ks ++ [k] ∧ Forall (λ k, keyFunc k = true) ks ∧ keyFunc k = false).
Proof.
  unfold ScanKeys. destruct (ctx_Done ctx 0); [by left|].
  pose (Pre := λ s : Scan, Forall (λ k, keyFunc k = true) (s_keys s)).
  pose (J := λ rs : outcome (option error) * Scan,
          Pre rs.2 ∨
          (rs.1 = Returns (Some errCanceled) ∧
           ∃ ks k, s_keys rs.2 = ks ++ [k] ∧ Forall (λ k, keyFunc k = true) ks ∧
                   keyFunc k = false)).
  assert (J (filepath_walk (scanFn ctx keyFunc errFunc) (GetRootDataDir opts) observed
               {| s_files := fs; s_polls := 1; s_keys := [] |})) as H.
  { apply (filepath_walk_invariant Pre J);
      [by left | by intros s [?|[? _]] | by intros s [?|[? _]] | | by constructor].
    intros path isDir err s Hs. unfold J, scanFn.
    destruct (ctx_Done ctx (s_polls s)); [by left|].
    destruct err as [e|].
    { destruct (call_errFunc errFunc path e) as [[|]|]; by left. }
    destruct isDir; [by left|].
    destruct (String.eqb _ _); [|by left].
    destruct (readKey _ path) as [key|e]; cbn [s_files].
    - destruct (keyFunc key) eqn:Hk; cbn [negb].
      + left. cbn. apply Forall_app. split; [done|]. by apply Forall_singleton.
      + right. split; [done|]. cbn. eauto.
    - destruct (call_errFunc errFunc path e) as [[|]|]; by left. }
  unfold filepath_Walk.
  destruct (filepath_walk _ _ _ _) as [r s]. unfold J, Pre in H. cbn [fst snd] in H.
  destruct H as [H|[-> H]]; [|by right].
  destruct r as [[e|]|]; [destruct e|..]; by left.
Qed.

(** *** A scan of a store at rest *)

Section Delivery.

Context (keyFunc : KeyFunc) (f : ErrFunc) (fs : FS).

Hypothesis f_ignores : ∀ path e, f path e = true.
Hypothesis keyFunc_accepts : ∀ k, keyFunc k = true.

Lemma walk_names_delivers names :
  Forall (delivers keyFunc f fs) names →
  ∀ path s keys,
    same_files (λ _, True) fs (s_files s) →
    Forall (λ p, ∀ c, fs !! clean p ≠ Some (File c))
      (flat_map (λ c, listed_dirs (filepath_Join path (node_name c)) c) names) →
    Forall2 (λ p k, fs !! clean p = Some (File k))
      (flat_map (λ c, key_files (filepath_Join path (node_name c)) c) names) keys →
    ∃ s', walk_names (filepath_walk (scanFn Background keyFunc (Some f)))
            (scanFn Background keyFunc (Some f)) path names s = (Returns None, s') ∧
          same_files (λ _, True) fs (s_files s') ∧ s_keys s' = s_keys s ++ keys.
Proof using Type.
  induction 1 as [|c cs Hc _ IH]; intros path s keys Hs Hdirs Hkeys;
    cbn [flat_map walk_names] in *.
  - apply Forall2_nil_inv_l in Hkeys as ->. exists s. by rewrite app_nil_r.
  - apply Forall_app in Hdirs as [Hd1 Hd2].
    apply Forall2_app_inv_l in Hkeys as (k1 & k2 & Hk1 & Hk2 & ->).
    destruct (Hc (filepath_Join path (node_name c)) s k1 Hs Hd1 Hk1)
      as (r & s1 & Hrun & Hr & Hs1 & Hkeys1).
    destruct (IH path s1 k2 Hs1 Hd2 Hk2) as (s2 & Hrest & Hs2 & Hkeys2).
    exists s2. split; [|split; [done|by rewrite Hkeys2, Hkeys1, app_assoc]].
    destruct c as [n e|n|n cs'|n e]; cbn [node_name IsDir filepath_walk] in *;
      rewrite Hrun; destruct Hr as [->|[-> Hr]]; done.
Qed.

Lemma filepath_walk_delivers t : delivers keyFunc f fs t.
Proof using f_ignores keyFunc_accepts.
  induction t as [name e|name|name children IH|name e] using WalkTree_forall_ind;
    unfold delivers; intros path s keys Hs Hdirs Hkeys;
    cbn [filepath_walk key_files listed_dirs] in *.
  - apply Forall2_nil_inv_l in Hkeys as ->.
    eexists _, _. unfold scanFn, call_errFunc. cbn [ctx_Done]. rewrite f_ignores.
    split; [done|]. split; [by right|]. split; [done|]. by rewrite app_nil_r.
  - unfold scanFn. cbn [ctx_Done s_files].
    destruct (String.eqb (filepath_Base path) KeyFilename).
    + apply Forall2_cons_inv_l in Hkeys as (k & ks & Hk & ->%Forall2_nil_inv_l & ->).
      unfold readKey, os_Open.
      assert (s_files s !! clean path = Some (File k)) as -> by (by apply Hs).
      cbn [ioutil_ReadAll_file]. rewrite keyFunc_accepts. cbn [negb].
      eexists _, _. split; [done|]. split; [by left|]. done.
    + apply Forall2_nil_inv_l in Hkeys as ->.
      eexists _, _. split; [done|]. split; [by left|]. split; [done|]. by rewrite app_nil_r.
  - apply Forall_cons in Hdirs as [Hdir Hdirs].
    unfold scanFn at 1. cbn [ctx_Done s_files s_polls s_keys].
    set (s0 := {| s_files := _; s_polls := _; s_keys := _ |}).
    assert (same_files (λ _, True) fs (s_files s0)) as Hs0.
    { intros q _ c. subst s0. cbn [s_files]. rewrite <- (Hs q I c).
      destruct (os_Remove (s_files s) path) as [err fs'] eqn:E.
      apply os_Remove_spec in E as [(_ & ->)|[(_ & -> & _)|(_ & _ & ->)]];
        cbn [snd]; [|done..].
      destruct (decide (q = clean path)) as [->|Hne].
      - rewrite lookup_delete_eq. split; [done|]. intros Hq.
        apply Hs in Hq; [|done]. by apply Hdir in Hq.
      - by rewrite lookup_delete_ne. }
    destruct (walk_names_delivers children IH path s0 keys Hs0 Hdirs Hkeys)
      as (s' & Hrun & Hs' & Hkeys').
    eexists _, _. split; [exact Hrun|]. split; [by left|]. done.
  - apply Forall2_nil_inv_l in Hkeys as ->.
    eexists _, _. unfold scanFn, call_errFunc. cbn [ctx_Done]. rewrite f_ignores.
    split; [done|]. split; [by right|]. split; [done|]. by rewrite app_nil_r.
Qed.

End Delivery.

(** X16. On a store that nothing else changes, a scan that ignores errors
    and is never told to stop hands over the key of every key file the
    walk comes upon, in the order of the walk, and returns nil. *)
Theorem ScanKeys_delivers_every_key keyFunc (f : ErrFunc) observed (fs : FS) keys :
  (∀ path e, f path e = true) →
  (∀ k, keyFunc k = true) →
  Forall (λ p, ∀ c, fs !! clean p ≠ Some (File c))
    (listed_dirs (GetRootDataDir opts) observed) →
  Forall2 (λ p k, fs !! clean p = Some (File k))
    (key_files (GetRootDataDir opts) observed) keys →
  ∃ s, ScanKeys opts Background keyFunc (Some f) observed fs = (Returns None, s) ∧
       s_keys s = keys.
Proof.
  intros Hf Hk Hdirs Hkeys. unfold ScanKeys, filepath_Walk. cbn [ctx_Done].
  destruct (filepath_walk_delivers keyFunc f fs Hf Hk observed (GetRootDataDir opts)
              {| s_files := fs; s_polls := 1; s_keys := [] |} keys)
    as (r & s' & -> & Hr & _ & Hkeys'); [done..|].
  exists s'. split; [|done]. by destruct Hr as [->|[-> _]].
Qed.

End ScanKeysProperties.

(** ** The calls the remote tier makes *)

Section TierCalls.

Import remote.

Context (fc : FlateCodec) (opts : Options) (IsNotExist : option error → bool).
Context {S : Type} (h : Handler S).

(** X17. When the local store answers, with the data or with an error other
    than no such key, [Read] returns that answer after this one call:
    the bucket is not asked. *)
Theorem Read_local_answer key (s : S) r s1 :
  h _ (LocalRead key) s = (r, s1) →
  IsNoSuchKeyError (local.error_of r) = false →
  run h (Read opts IsNotExist key) s = (r, s1, [Called (LocalRead key) r]).
Proof.
  intros H1 Hno. unfold Read. rewrite run_bind, run_call, H1. cbv beta iota.
  destruct r as [data|err]; [done|]. cbn [local.error_of] in Hno. by rewrite Hno.
Qed.

(** X18. [Read] removes nothing and uploads nothing. It asks the bucket
    only after the local store reported no such key, and it writes to
    the local store only after the object was downloaded completely
    and a second local read failed as well. *)
Theorem Read_caches_only_after_recheck key (s : S) :
  let '(_, _, tr) := run h (Read opts IsNotExist key) s in
  existsb is_removal_or_upload tr = false ∧
  (calls_bucket tr = true →
   ∃ e, tr !! 0 = Some (Called (LocalRead key) (Err e)) ∧
        IsNoSuchKeyError (Some e) = true) ∧
  (writes_local tr = true →
   ∃ d e, tr !! 1 = Some (Called (BucketRead (GetRemoteName opts key)) (Ok d)) ∧
          s_err d = None ∧
          tr !! 2 = Some (Called (LocalRead key) (Err e))).
Proof.
  unfold Read. rewrite run_bind, run_call.
  destruct (h _ (LocalRead key) s) as [[data|e1] s1]; cbv beta iota; [done|].
  destruct (IsNoSuchKeyError (Some e1)) eqn:Hno; cbn [negb]; [|done].
  rewrite run_bind, run_call.
  destruct (h _ (BucketRead (GetRemoteName opts key)) s1) as [remote s2]; cbv beta iota.
  destruct (negb (IsNotExist (local.error_of remote))).
  - destruct remote as [[d [e|]]|e]; cbn [io_Copy s_err s_data run];
      [split; [done|split; [eauto|done]]| |split; [done|split; [eauto|done]]].
    rewrite run_bind, run_call.
    destruct (h _ (LocalRead key) s2) as [[data|e2] s3]; cbv beta iota;
      [split; [done|split; [eauto|done]]|].
    destruct (gzip.NewReader d) as [reader|e]; cbn [run];
      [|split; [done|split; [eauto|done]]].
    rewrite run_bind, run_call.
    destruct (h _ (LocalWrite key (gzip.unread reader)) s3) as [[e|] s4]; cbv beta iota.
    + cbn [run]. split; [done|]. split; eauto.
    + rewrite run_call. destruct (h _ (LocalRead key) s4) as [r s5].
      split; [done|]. split; eauto.
  - rewrite run_call. destruct (h _ (LocalRead key) s2) as [r s3].
    split; [done|]. split; [eauto|done].
Qed.

(** X19. [Delete] always makes both calls, the local one first: a failure
    of the local delete does not keep it from asking the bucket. *)
Theorem Delete_calls_both key (s : S) :
  let '(errL, s1) := h _ (LocalDelete key) s in
  let '(errB, s2) := h _ (BucketDelete (GetRemoteName opts key)) s1 in
  (run h (Delete opts IsNotExist key) s).2 =
  [Called (LocalDelete key) errL; Called (BucketDelete (GetRemoteName opts key)) errB].
Proof.
  unfold Delete. rewrite run_bind, run_call.
  destruct (h _ (LocalDelete key) s) as [errL s1]. cbv beta iota zeta.
  destruct (negb (IsNoSuchKeyError errL)); rewrite run_bind, run_call;
    destruct (h _ (BucketDelete (GetRemoteName opts key)) s1) as [errB s2];
    cbv beta iota zeta; destruct (negb (IsNotExist errB)); done.
Qed.

(** X20. [uploadKey] never writes to the local store. It calls
    [Local.Delete] only as its fourth call, after a local read, a
    bucket write that returned nil and a second local read, and then
    returns what the delete returned. When it returns nil without
    deleting, the bucket write had returned nil as well. What it hands
    to the bucket is the bytes read locally followed by a gzip header
    and a sync marker. *)
Theorem uploadKey_deletes_only_after_upload key (s : S) :
  let '(res, _, tr) := run h (uploadKey fc opts key) s in
  writes_local tr = false ∧
  (deletes_local key tr = true ∨ res = None →
   ∃ r1 copied r3,
     local.ioutil_ReadAll fc r1 = Ok copied ∧
     take 3 tr =
     [Called (LocalRead key) (Ok r1);
      Called (BucketWrite (GetRemoteName opts key)
                (copied ++ gzip.header gzip.BestCompression ++ flate_sync_marker)) None;
      Called (LocalRead key) (Ok r3)] ∧
     (deletes_local key tr = true → drop 3 tr = [Called (LocalDelete key) res]) ∧
     (deletes_local key tr = false → drop 3 tr = [])).
Proof.
  unfold uploadKey. rewrite run_bind, run_readAndGzip.
  destruct (h _ (LocalRead key) s) as [[r1|e1] s1]; cbv beta iota;
    [|cbn; split; [done|]; by intros [|]].
  destruct (local.ioutil_ReadAll fc r1) as [copied|e] eqn:Hcopy; cbv beta iota zeta;
    [|cbn; split; [done|]; by intros [|]].
  rewrite run_bind, run_call.
  destruct (h _ (BucketWrite _ _) s1) as [[e|] s2]; cbv beta iota;
    [cbn; split; [done|]; by intros [|]|].
  rewrite run_bind, run_readAndGzip.
  destruct (h _ (LocalRead key) s2) as [[r3|e3] s3]; cbv beta iota;
    [|cbn; split; [done|]; by intros [|]].
  destruct (local.ioutil_ReadAll fc r3) as [copied'|e]; cbv beta iota zeta;
    [|cbn; split; [done|]; by intros [|]].
  destruct (_ =? _)%N.
  - rewrite run_call. destruct (h _ (LocalDelete key) s3) as [res s4].
    split; [done|]. intros _. eexists _, _, _. split; [done|].
    split; [done|]. split; [done|].
    cbn. unfold Key_Equals. by rewrite bool_decide_eq_true_2.
  - cbn [run]. split; [done|]. intros _. eexists _, _, _. split; [done|]. done.
Qed.

(** *** The counters of a scan *)

Lemma atomic_AddInt64_1 (x : Z) :
  (- 2 ^ 63 ≤ x < 2 ^ 63 - 1)%Z → atomic_AddInt64 x 1 = (x + 1)%Z.
Proof.
  intros Hx. unfold atomic_AddInt64.
  rewrite Z.mod_small by lia. lia.
Qed.

(** X21. A worker counts every key it takes once as scanned and once as
    skipped, uploaded or failed: as long as the counters do not
    overflow, the three add up to the number of keys scanned. *)
Theorem worker_counts_every_key keys : ∀ c (s : S),
  (0 ≤ skipped c)%Z → (0 ≤ uploaded c)%Z → (0 ≤ failed c)%Z →
  (skipped c + uploaded c + failed c ≤ scanned c)%Z →
  (scanned c + Z.of_nat (length keys) < 2 ^ 63)%Z →
  let c' := (run h (worker fc opts keys c) s).1.1 in
  scanned c' = (scanned c + Z.of_nat (length keys))%Z ∧
  (skipped c' + uploaded c' + failed c'
   = skipped c + uploaded c + failed c + Z.of_nat (length keys))%Z ∧
  (skipped c ≤ skipped c')%Z ∧ (uploaded c ≤ uploaded c')%Z ∧ (failed c ≤ failed c')%Z.
Proof.
  induction keys as [|key keys IH]; intros c s Hs Hu Hf Hsum Hmax; cbv zeta.
  - cbn. lia.
  - cbn [worker length] in *. rewrite run_bind.
    destruct (run h (worker_key fc opts key c) s) as [[c1 s1] tr1] eqn:H1.
    assert (scanned c1 = scanned c + 1 ∧
            skipped c1 + uploaded c1 + failed c1
            = skipped c + uploaded c + failed c + 1 ∧
            skipped c ≤ skipped c1 ∧ uploaded c ≤ uploaded c1 ∧ failed c ≤ failed c1)%Z
      as (E1 & E2 & L1 & L2 & L3).
    { unfold worker_key in H1. destruct (SkipKey opts key).
      - injection H1 as <- _ _. cbn. rewrite !atomic_AddInt64_1 by lia. lia.
      - rewrite run_bind in H1.
        destruct (run h (uploadKey fc opts key) s) as [[[e|] s0] tr0];
          injection H1 as <- _ _; cbn; rewrite !atomic_AddInt64_1 by lia; lia. }
    specialize (IH c1 s1). cbv zeta in IH.
    destruct (run h (worker fc opts keys c1) s1) as [[c2 s2] tr2]. cbn [fst] in *.
    lia.
Qed.

(** X22. Keys that the skip predicate selects are counted and otherwise
    left alone: the worker makes no call for them. *)
Theorem worker_makes_no_call_for_skipped_keys keys : ∀ c (s : S),
  Forall (λ key, SkipKey opts key = true) keys →
  ∃ c', run h (worker fc opts keys c) s = (c', s, []).
Proof.
  induction keys as [|key keys IH]; intros c s Hall; cbn [worker]; [by eexists|].
  apply Forall_cons in Hall as [Hkey Hall]. rewrite run_bind.
  unfold worker_key. rewrite Hkey. cbn [run].
  match goal with
  | |- context [run h (worker fc opts keys ?c1) s] => destruct (IH c1 s Hall) as [c' ->]
  end.
  by eexists.
Qed.

End TierCalls.

(** ** The two tiers together *)

Section TiersTogether.

Import remote.

Context (fc : FlateCodec) (lopts : local.Options) (ropts : Options).
Context (IsNotExist : option error → bool).

(** Reading back what a [Write] of the local engine has stored. *)
Lemma Write_Ok_Read ctx ctx' key data w u w' :
  lossless fc →
  local.entry_outside_temp lopts key = true →
  ctx_Done ctx' 0 = false →
  local.Write fc lopts ctx key data w = (Ok u, w') →
  ∃ reader,
    local.Read lopts (local.files w') ctx' key = Ok reader ∧
    local.ioutil_ReadAll fc reader = Ok data.
Proof.
  intros Hfc Hout Hctx HW.
  destruct (Write_entry _ _ _ _ _ _ _ _ HW Hout) as [Hkey Hdata].
  destruct (entry_files lopts key local.KeyFilename) as [Ck _]; [set_solver|done|].
  destruct (entry_files lopts key local.DataFilename) as [Cd _]; [set_solver|done|].
  destruct (entry_files lopts key local.GzipDataFilename) as [Cg _]; [set_solver|done|].
  rewrite Read_matching_key by (by rewrite ?Ck). cbn zeta.
  destruct (local.GetUseGzip lopts).
  - destruct Hdata as [(writer & Hw & Hgz) Hno]. rewrite Cd, Hno, Cg, Hgz.
    cbn [ioutil_ReadAll_file].
    destruct (gzip_roundtrip fc _ writer data Hfc Hw) as (reader & -> & Hall).
    by exists (local.Wrapped reader (File (gzip.Writer_Copy_Close fc writer data))).
  - destruct Hdata as [Hraw _]. rewrite Cd, Hraw. by exists (local.OsFile (File data)).
Qed.

(** X23. Read-your-writes through the remote tier: once [Write] has
    returned nil, [Read] of the key returns the value from the local
    store with a single call; the bucket is neither asked nor
    changed. *)
Theorem remote_Write_then_Read key data (s s1 : Store) tr :
  lossless fc →
  local.entry_outside_temp lopts key = true →
  run (serve fc lopts) (Write key data) s = (None, s1, tr) →
  objects s1 = objects s ∧
  ∃ reader,
    run (serve fc lopts) (Read ropts IsNotExist key) s1
    = (Ok reader, s1, [Called (LocalRead key) (Ok reader)]) ∧
    local.ioutil_ReadAll fc reader = Ok data.
Proof.
  intros Hfc Hout. unfold Write. rewrite run_call. cbn [serve].
  destruct (local.Write fc lopts Background key data (local_world s)) as [[u|e] w'] eqn:HW;
    [|done].
  intros [= <- _]. cbn [objects]. split; [done|].
  destruct (Write_Ok_Read Background Background _ _ _ _ _ Hfc Hout eq_refl HW)
    as (reader & HR & Hall).
  exists reader. split; [|done].
  unfold Read. rewrite run_bind, run_call. cbn [serve local_world]. by rewrite HR.
Qed.

(** A gzip reader rejects input that does not begin with the gzip
    magic number and method. *)
Lemma NewReader_no_magic (data rest : bytes) :
  3 ≤ length data → take 3 data ≠ [x1f; x8b; x08] → 7 ≤ length rest →
  gzip.NewReader (data ++ rest) = Err gzip_ErrHeader.
Proof.
  intros Hlen Hmagic Hrest.
  destruct data as [|b0 [|b1 [|b2 data']]]; cbn [length] in Hlen; try lia.
  unfold gzip.NewReader, gzip.readHeader. cbn [app].
  unfold read_full. rewrite decide_True by (cbn [length]; rewrite length_app; lia).
  destruct (data' ++ rest) as [|b3 more] eqn:E.
  { apply (f_equal length) in E. rewrite length_app in E. cbn in E. lia. }
  cbn [take]. rewrite bool_decide_eq_false_2; [done|].
  intros (-> & -> & ->). by apply Hmagic.
Qed.

(** X24. What the upload loop has moved to the bucket cannot be read back.
    Once [uploadKey] has returned nil for a key whose value is [data],
    the local entry is gone and the bucket holds [data] followed by a
    gzip header and a sync marker; [Read] downloads that and, unless
    [data] itself begins like a gzip file, fails with the gzip header
    error and writes nothing to the local store. *)
Theorem uploaded_key_unreadable key reader data (s s1 : Store) tr :
  local.entry_below_dir lopts key = true →
  local.Read lopts (local.files (local_world s)) Background key = Ok reader →
  local.ioutil_ReadAll fc reader = Ok data →
  3 ≤ length data → take 3 data ≠ [x1f; x8b; x08] →
  run (serve fc lopts) (uploadKey fc ropts key) s = (None, s1, tr) →
  let content := data ++ gzip.header gzip.BestCompression ++ flate_sync_marker in
  objects s1 !! GetRemoteName ropts key = Some content ∧
  run (serve fc lopts) (Read ropts mock_IsNotExist key) s1 =
  (Err gzip_ErrHeader, s1,
   [Called (LocalRead key) (Err (NoSuchKeyError key));
    Called (BucketRead (GetRemoteName ropts key)) (Ok {| s_data := content; s_err := None |});
    Called (LocalRead key) (Err (NoSuchKeyError key))]).
Proof.
  intros Hbelow HR Hall Hlen Hmagic. unfold uploadKey.
  rewrite run_bind, run_readAndGzip. cbn [serve]. rewrite HR, Hall. cbv beta iota zeta.
  rewrite run_bind, run_call. cbn [serve]. cbv beta iota.
  rewrite run_bind, run_readAndGzip. cbn [serve local_world]. rewrite HR, Hall.
  cbv beta iota zeta. rewrite N.eqb_refl, run_call. cbn [serve local_world objects].
  destruct (local.Delete lopts Background key (local_world s)) as [[u|e] w'] eqn:HD;
    [|done].
  intros [= <- _]. cbn [objects]. split; [apply lookup_insert_eq|].
  apply Delete_Ok in HD as (_ & _ & ->).
  assert (local.Read lopts
            (os_RemoveAll (local.files (local_world s)) (local.GetDirForKey lopts key)).2
            Background key = Err (NoSuchKeyError key)) as Hgone.
  { apply Read_no_key_file; [done|]. by apply removed_entry_Lstat. }
  unfold Read. rewrite run_bind, run_call. cbn [serve local_world local.files].
  rewrite Hgone. cbv beta iota. cbn [IsNoSuchKeyError negb].
  rewrite run_bind, run_call. cbn [serve objects]. rewrite lookup_insert_eq.
  cbv beta iota. cbn [local.error_of mock_IsNotExist os_IsNotExist negb io_Copy s_err s_data].
  rewrite run_bind, run_call. cbn [serve local_world local.files].
  rewrite Hgone. cbv beta iota.
  rewrite NewReader_no_magic; [done|done..|cbn; lia].
Qed.

End TiersTogether.

(** ** The properties at work on the example database *)

Section FurtherExamples.

Import example.

Lemma Read_NoSuchKey_iff_witness :
  local.Read (lopts false) ∅ Background foo = Err (NoSuchKeyError foo) ∧
  local.Read (lopts false) (local.files (written false)) Background foo
  ≠ Err (NoSuchKeyError foo).
Proof.
  split.
  - pose proof (Read_NoSuchKey_iff (lopts false) ∅ Background foo foo) as H.
    cbv zeta in H. apply H; [reflexivity|].
    split; [reflexivity|]. left. reflexivity.
  - intros E.
    pose proof (Read_NoSuchKey_iff (lopts false) (local.files (written false))
                  Background foo foo) as H.
    cbv zeta in H. apply H in E; [|reflexivity].
    destruct E as [_ [E|(_ & E & _)]]; vm_compute in E; discriminate E.
Defined.

Lemma Read_KeyCollision_iff_witness :
  local.Read crowded (local.files crowded_written) Background bar
  = Err (KeyCollisionError bar foo).
Proof.
  apply (Read_KeyCollision_iff crowded (local.files crowded_written) Background bar bar foo);
    [reflexivity|].
  split; [reflexivity|]. split; [by vm_compute|vm_compute; reflexivity].
Defined.

Lemma Delete_failure_witness :
  local.Delete (lopts false) Background foo fresh = (Err (NoSuchKeyError foo), fresh).
Proof.
  destruct (Delete_failure (lopts false) Background foo fresh) as [_ H]; [reflexivity|].
  apply H. split; [reflexivity|]. split; reflexivity.
Defined.

Lemma Delete_removes_directory_witness :
  local.files deleted !! "/db/data/foo/key" = None ∧
  local.files deleted !! "/db/data/foo" = None ∧
  local.files deleted !! "/db/data" = Some Dir.
Proof.
  destruct (Delete_removes_directory (lopts false) Background foo (written false) tt deleted)
    as [_ H]; [vm_compute; reflexivity|].
  rewrite !H. vm_compute. auto.
Defined.

Lemma Delete_then_Read_witness :
  local.Read (lopts false) (local.files deleted) Background foo = Err (NoSuchKeyError foo) ∧
  local.Delete (lopts false) Background foo deleted = (Err (NoSuchKeyError foo), deleted).
Proof.
  apply (Delete_then_Read (lopts false) Background Background foo (written false) tt deleted);
    vm_compute; reflexivity.
Defined.

Lemma Write_then_Delete_witness :
  ∃ w'', local.Delete (lopts true) Background foo (written true) = (Ok tt, w'').
Proof.
  apply (Write_then_Delete stored_codec (lopts true) Background Background
           foo bar fresh tt (written true)); vm_compute; reflexivity.
Defined.

Lemma getTempDir_ready_witness :
  let w' := (local.getTempDir (lopts false) fresh).2 in
  local.files fresh !! "/db/tmp/fsdb_1" = None ∧
  local.files w' !! "/db/tmp/fsdb_1" = Some Dir.
Proof.
  intros w'.
  destruct (getTempDir_ready (lopts false) fresh "/db/tmp/fsdb_1/" w')
    as (_ & _ & _ & H1 & H2 & _); [vm_compute; reflexivity|].
  split; [exact H1|exact H2].
Defined.

Lemma Write_cancelled_keeps_entry_witness :
  (∃ e, (local.Write stored_codec (lopts false) (DoneAt 3) foo baz (written false)).1 = Err e) ∧
  local.files cancelled !! "/db/data/foo/data" = Some (File bar).
Proof.
  destruct (Write_cancelled_keeps_entry stored_codec (lopts false) (DoneAt 3) foo baz
              (written false)) as [He Hsame]; [reflexivity|].
  split; [exact He|].
  apply (Hsame "/db/data/foo/data"); vm_compute; reflexivity.
Defined.

Lemma Write_leaves_no_temp_witness :
  local.files (written false) !! "/db/tmp/fsdb_1" = None ∧
  local.files (written false) !! "/db/tmp/fsdb_1/key" = None.
Proof.
  pose proof (Write_leaves_no_temp stored_codec (lopts false) Background foo bar fresh) as H.
  split.
  - destruct (local.files (written false) !! "/db/tmp/fsdb_1") as [n|] eqn:E; [|reflexivity].
    apply H in E; [|vm_compute; reflexivity..]. vm_compute in E. discriminate E.
  - destruct (local.files (written false) !! "/db/tmp/fsdb_1/key") as [n|] eqn:E; [|reflexivity].
    apply H in E; [|vm_compute; reflexivity..]. vm_compute in E. discriminate E.
Defined.

Lemma Read_local_answer_witness :
  remote.run (db false) (remote.Read ropts remote.mock_IsNotExist foo) (local_only false)
  = (Ok (local.OsFile (File bar)), local_only false,
     [remote.Called (remote.LocalRead foo) (Ok (local.OsFile (File bar)))]).
Proof.
  apply (Read_local_answer ropts remote.mock_IsNotExist (db false) foo (local_only false));
    vm_compute; reflexivity.
Defined.

Lemma worker_counts_every_key_witness :
  let c' := (remote.run (db false) (remote.worker stored_codec ropts [foo; foo] zero)
               (local_only false)).1.1 in
  remote.scanned c' = 2%Z ∧
  (remote.skipped c' + remote.uploaded c' + remote.failed c' = 2)%Z.
Proof.
  intros c'.
  destruct (worker_counts_every_key stored_codec ropts (db false) [foo; foo] zero
              (local_only false)) as (H1 & H2 & _);
    [vm_compute; discriminate..|vm_compute; reflexivity|].
  split; [exact H1|exact H2].
Defined.

Lemma worker_makes_no_call_for_skipped_keys_witness :
  ∃ c', remote.run (db false) (remote.worker stored_codec skip_all [foo; foo] zero)
          (local_only false) = (c', local_only false, []).
Proof.
  apply (worker_makes_no_call_for_skipped_keys stored_codec skip_all (db false) [foo; foo]).
  repeat constructor.
Defined.

Lemma remote_Write_then_Read_witness :
  ∃ reader,
    remote.run (db true) (remote.Read ropts remote.mock_IsNotExist foo) (local_only true)
    = (Ok reader, local_only true, [remote.Called (remote.LocalRead foo) (Ok reader)]) ∧
    local.ioutil_ReadAll stored_codec reader = Ok bar.
Proof.
  destruct (remote_Write_then_Read stored_codec (lopts true) ropts remote.mock_IsNotExist
              foo bar {| remote.local_world := fresh; remote.objects := ∅ |}
              (local_only true)
              [remote.Called (remote.LocalWrite foo bar) None])
    as [_ H]; [apply stored_lossless|vm_compute; reflexivity..|exact H].
Defined.

Lemma uploaded_key_unreadable_witness :
  remote.objects uploaded_foo !! "foo"
  = Some (bar ++ gzip.header gzip.BestCompression ++ flate_sync_marker) ∧
  (remote.run (db false) (remote.Read ropts remote.mock_IsNotExist foo) uploaded_foo).1
  = (Err gzip_ErrHeader, uploaded_foo).
Proof.
  destruct (uploaded_key_unreadable stored_codec (lopts false) ropts foo
              (local.OsFile (File bar)) bar (local_only false) uploaded_foo
              (remote.run (db false) (remote.uploadKey stored_codec ropts foo)
                 (local_only false)).2) as [H1 H2];
    [vm_compute; reflexivity..|vm_compute; lia|by vm_compute|vm_compute; reflexivity|].
  split; [exact H1|exact (f_equal fst H2)].
Defined.

Lemma ScanKeys_delivers_every_key_witness :
  ∃ s, local.ScanKeys (lopts false) Background (λ _, true) (Some (λ _ _, true))
         observed_written (local.files (written false)) = (local.Returns None, s) ∧
       local.s_keys s = [foo].
Proof.
  apply (ScanKeys_delivers_every_key (lopts false) (λ _, true) (λ _ _, true)
           observed_written (local.files (written false)) [foo]); try reflexivity.
  - change (Forall (λ p, ∀ c, local.files (written false) !! clean p ≠ Some (File c))
              ["/db/data/"; "/db/data/foo"]).
    repeat constructor; intros c; vm_compute; discriminate.
  - change (Forall2 (λ p k, local.files (written false) !! clean p = Some (File k))
              ["/db/data/foo/key"] [foo]).
    repeat constructor.
Defined.

Lemma Write_leaves_other_keys_witness :
  local.Read (lopts false) (local.files both) Background foo
  = local.Read (lopts false) (local.files (written false)) Background foo.
Proof.
  apply (Write_leaves_other_keys stored_codec (lopts false) Background Background
           bar baz (written false) foo).
  change (local.entry_paths (lopts false) foo)
    with ["/db/data/foo/key"; "/db/data/foo/data"; "/db/data/foo/data.gz"].
  repeat constructor; try (vm_compute; reflexivity);
    apply (bool_decide_unpack _); vm_compute; exact I.
Defined.

Lemma Delete_leaves_other_keys_witness :
  local.Read (lopts false)
    (local.files (local.Delete (lopts false) Background bar both).2) Background foo
  = local.Read (lopts false) (local.files both) Background foo.
Proof.
  apply (Delete_leaves_other_keys (lopts false) Background Background bar both foo).
  change (local.entry_paths (lopts false) foo)
    with ["/db/data/foo/key"; "/db/data/foo/data"; "/db/data/foo/data.gz"].
  repeat constructor; try (vm_compute; reflexivity);
    apply (bool_decide_unpack _); vm_compute; exact I.
Defined.

End FurtherExamples.
